(** * etl::function_wrapper (include/etl/function_wrapper.h)

    A shallow embedding of the three [function_wrapper] specialisations:
    the wrapper of free functions, lambdas and functors, the wrapper of
    member functions and the wrapper of const member functions.

    Conventions of the embedding.
    - A pointer to an object or to a free function is an address, a [Z];
      [ETL_NULLPTR] is address 0.
    - Distinct functions have distinct addresses, so a stub pointer is
      either null or the name of the stub it points to.
    - The callables that a wrapper can reach (free functions, functor
      call operators, member functions) are user code; they are given by
      a program environment that maps a pointer to the code behind it.
      User code acts on a user heap of type [W].
    - A computation threads a [world]: the user heap, the list of calls
      made to user code so far and the conditions handed to the error
      facility so far. *)

From stdpp Require Import base decidable option numbers list.

Set Implicit Arguments.

(** ** Pointers *)

Definition pointer := Z.
Definition ETL_NULLPTR : pointer := 0%Z.

(** The identity of a class type, as in the template argument [TLambda]. *)
Definition class_id := N.

(** The identity of a member function of the receiver's class. A pointer to
    member is either null or designates one member function. *)
Definition method_id := N.

(** ** Exceptions (function_wrapper.h, lines 56-77) *)

Inductive etl_exception :=
  | member_function_uninitialised.

(** ** Worlds, outcomes and the computation monad *)

(** Who was called: one constructor per way user code is entered. *)
Inductive callee :=
  | free_function (f : pointer)
  | functor_object (TLambda : class_id) (p : pointer)
  | const_functor_object (TLambda : class_id) (p : pointer)
  | member_function (m : method_id) (receiver : pointer)
  | const_member_function (m : method_id) (receiver : pointer)
  | fallback_callable.

Global Instance callee_eq_dec : EqDecision callee.
Proof. solve_decision. Defined.

Record call_event (TParameters : Type) := Call {
  target : callee;
  arguments : TParameters
}.

(** Operations that C++ leaves undefined. *)
Inductive fault :=
  | null_stub_dereference
  | invalid_function_pointer (f : pointer)
  | invalid_object_pointer (p : pointer)
  | null_member_pointer.

Inductive outcome (A : Type) :=
  | Normal (a : A)
  | Thrown (e : etl_exception)
  | Halted
  | Undefined (u : fault).

Arguments Normal {A} a.
Arguments Thrown {A} e.
Arguments Halted {A}.
Arguments Undefined {A} u.

Record world (W TParameters : Type) := World {
  heap : W;
  calls : list (call_event TParameters);
  reported : list etl_exception
}.

Definition M (W TParameters A : Type) : Type :=
  world W TParameters -> outcome A * world W TParameters.

Section Monad.
Context {W TParameters : Type}.

Local Abbreviation M := (M W TParameters).

Definition ret {A} (a : A) : M A := fun s => (Normal a, s).

Definition bind {A B} (m : M A) (k : A -> M B) : M B :=
  fun s =>
    match m s with
    | (Normal a, s') => k a s'
    | (Thrown e, s') => (Thrown e, s')
    | (Halted, s') => (Halted, s')
    | (Undefined u, s') => (Undefined u, s')
    end.

Definition undefined {A} (u : fault) : M A := fun s => (Undefined u, s).

(** Entering user code: the call is recorded, the code runs on the heap. *)
Definition invoke {A} (c : callee) (params : TParameters)
    (body : TParameters -> W -> A * W) : M A :=
  fun s =>
    let (r, h) := body params (heap s) in
    (Normal r,
     {| heap := h;
        calls := calls s ++ [Call c params];
        reported := reported s |}).

Definition report (e : etl_exception) (s : world W TParameters) :
    world W TParameters :=
  {| heap := heap s; calls := calls s; reported := reported s ++ [e] |}.
End Monad.

Notation "'do' x <- m ; k" := (bind m (fun x => k))
  (at level 10, x name, m at level 100, k at level 200, only parsing).

(** ** The error facility

    Modelled from the spec: the [ETL_ASSERT] macro and the error handler of
    error_handler.h are not part of the sources. The spec says the condition
    is handed to the error facility, whose injected policy either logs and
    continues, raises a catchable error, or halts. *)

Inductive error_policy :=
  | log_and_continue
  | raise_error
  | halt.

Definition ETL_ASSERT {W TParameters : Type} (policy : error_policy)
    (b : bool) (e : etl_exception) : M W TParameters unit :=
  if b then ret tt
  else fun s =>
    match policy with
    | log_and_continue => (Normal tt, report e s)
    | raise_error => (Thrown e, report e s)
    | halt => (Halted, report e s)
    end.

(** ** function_wrapper<TReturn(TParameters...)> (lines 88-351) *)

Module FreeCallable.

Definition function_type := pointer.

(** The address of a stub. [lambda_stub] and [const_lambda_stub] are
    templates: there is one function per [TLambda]. *)
Inductive stub_address :=
  | at_function_stub
  | at_lambda_stub (TLambda : class_id)
  | at_const_lambda_stub (TLambda : class_id).

Global Instance stub_address_eq_dec : EqDecision stub_address.
Proof. solve_decision. Defined.

(** [stub_type]: a pointer to a stub, [None] is [ETL_NULLPTR]. *)
Definition stub_type := option stub_address.

(** [union alternate_method_t]: one pointer-sized cell, read either as
    [object] or as [func]. Pointers to functions and pointers to objects
    share one representation, so both members read the stored address. *)
Record alternate_method_t := Alternate { cell : pointer }.

Definition object (a : alternate_method_t) : pointer := cell a.
Definition func (a : alternate_method_t) : function_type := cell a.

Definition alternate_default : alternate_method_t := Alternate ETL_NULLPTR.
Definition alternate_of_object (object_ : pointer) : alternate_method_t :=
  Alternate object_.
Definition alternate_of_func (func_ : function_type) : alternate_method_t :=
  Alternate func_.

Record invocation_element := Invocation {
  alternate : alternate_method_t;
  stub : stub_type
}.

Definition invocation_default : invocation_element :=
  {| alternate := alternate_default; stub := None |}.

Definition invocation_of_object (object_ : pointer) (stub_ : stub_type) :
    invocation_element :=
  {| alternate := alternate_of_object object_; stub := stub_ |}.

Definition invocation_of_func (func_ : function_type) (stub_ : stub_type) :
    invocation_element :=
  {| alternate := alternate_of_func func_; stub := stub_ |}.

(** [invocation_element::operator ==], lines 259-264. *)
Definition invocation_eq (this rhs : invocation_element) : bool :=
  bool_decide (stub this = stub rhs) &&
    (bool_decide (stub this = None) ||
     (bool_decide (stub this = Some at_function_stub) &&
      bool_decide (func (alternate rhs) = func (alternate this))) ||
     bool_decide (object (alternate rhs) = object (alternate this))).

Definition invocation_ne (this rhs : invocation_element) : bool :=
  negb (invocation_eq this rhs).

(** The defaulted copy assignment copies member by member. *)
Definition invocation_assign (this other : invocation_element) :
    invocation_element :=
  {| alternate := alternate other; stub := stub other |}.

Record function_wrapper := Wrapper { invocation : invocation_element }.

(** Constructors, lines 99-135. *)
Definition default : function_wrapper :=
  {| invocation := invocation_default |}.

Definition copy (other : function_wrapper) : function_wrapper :=
  {| invocation := invocation other |}.

Definition operator_assign (this other : function_wrapper) :
    function_wrapper :=
  {| invocation := invocation_assign (invocation this) (invocation other) |}.

Definition from_function (function_ : function_type) : function_wrapper :=
  {| invocation := invocation_of_func function_ (Some at_function_stub) |}.

Definition from_lambda (TLambda : class_id) (instance_ : pointer) :
    function_wrapper :=
  {| invocation :=
       invocation_of_object instance_ (Some (at_lambda_stub TLambda)) |}.

Definition from_const_lambda (TLambda : class_id) (instance_ : pointer) :
    function_wrapper :=
  {| invocation :=
       invocation_of_object instance_ (Some (at_const_lambda_stub TLambda)) |}.

Definition is_valid (this : function_wrapper) : bool :=
  negb (bool_decide (stub (invocation this) = None)).

Definition operator_bool (this : function_wrapper) : bool :=
  is_valid this.

Definition operator_eq (this rhs : function_wrapper) : bool :=
  invocation_eq (invocation this) (invocation rhs).

Definition operator_ne (this rhs : function_wrapper) : bool :=
  invocation_ne (invocation this) (invocation rhs).

(** The user code a free-callable wrapper can reach. A pointer that
    designates no function, or no live object of the class, has no code. *)
Record program (W TReturn TParameters : Type) := Program {
  function_body :
    function_type -> option (TParameters -> W -> TReturn * W);
  functor_body :
    class_id -> pointer -> option (TParameters -> W -> TReturn * W);
  const_functor_body :
    class_id -> pointer -> option (TParameters -> W -> TReturn * W)
}.

Section Calls.
Context {W TReturn TParameters : Type}.
Variable prog : program W TReturn TParameters.

Local Abbreviation M := (M W TParameters).

(** A direct call [f(params...)] through the function pointer [f]. *)
Definition call_function (f : function_type) (params : TParameters) :
    M TReturn :=
  match function_body prog f with
  | Some body => invoke (free_function f) params body
  | None => undefined (invalid_function_pointer f)
  end.

(** [(p->operator())(params...)] on a [TLambda*]. *)
Definition call_functor (TLambda : class_id) (p : pointer)
    (params : TParameters) : M TReturn :=
  match functor_body prog TLambda p with
  | Some body => invoke (functor_object TLambda p) params body
  | None => undefined (invalid_object_pointer p)
  end.

(** [(p->operator())(params...)] on a [const TLambda*]. *)
Definition call_const_functor (TLambda : class_id) (p : pointer)
    (params : TParameters) : M TReturn :=
  match const_functor_body prog TLambda p with
  | Some body => invoke (const_functor_object TLambda p) params body
  | None => undefined (invalid_object_pointer p)
  end.

(** The stubs, lines 322-345. *)
Definition function_stub (invocation : invocation_element)
    (params : TParameters) : M TReturn :=
  call_function (func (alternate invocation)) params.

Definition lambda_stub (TLambda : class_id)
    (invocation : invocation_element) (params : TParameters) : M TReturn :=
  let p := object (alternate invocation) in
  call_functor TLambda p params.

Definition const_lambda_stub (TLambda : class_id)
    (invocation : invocation_element) (params : TParameters) : M TReturn :=
  let p := object (alternate invocation) in
  call_const_functor TLambda p params.

(** The function found at a stub address. *)
Definition stub_code (a : stub_address) :
    invocation_element -> TParameters -> M TReturn :=
  match a with
  | at_function_stub => function_stub
  | at_lambda_stub TLambda => lambda_stub TLambda
  | at_const_lambda_stub TLambda => const_lambda_stub TLambda
  end.

(** [operator()], lines 224-227: the stub pointer is dereferenced and the
    stub called with the invocation element and [params]. *)
Definition operator_call (this : function_wrapper)
    (params : TParameters) : M TReturn :=
  match stub (invocation this) with
  | Some a => stub_code a (invocation this) params
  | None => undefined null_stub_dereference
  end.

End Calls.

(** [call_if] (lines 172-202) and [call_or] (lines 207-219) of this
    specialisation have no embedding. Their bodies spell the inner call
    [operator()(TParameters... params)] (lines 178, 198 and 213): a parameter
    declaration where the arguments of a call are required. The three member
    templates are ill-formed; no call of them compiles, so they have no
    behaviour to model. The two method specialisations write the same call
    with [params...] as arguments, and are embedded below. *)

End FreeCallable.

(** ** function_wrapper<TReturn(TObject&, TParameters...)> (lines 356-556) *)

Module MutableMethod.

(** [method_type]: a pointer to member function, [None] is [ETL_NULLPTR]. *)
Definition method_type := option method_id.

Inductive stub_address :=
  | at_method_stub.

Global Instance stub_address_eq_dec : EqDecision stub_address.
Proof. solve_decision. Defined.

Definition stub_type := option stub_address.

Record invocation_element := Invocation {
  method : method_type;
  stub : stub_type
}.

Definition invocation_default : invocation_element :=
  {| method := None; stub := None |}.

Definition invocation_of_method (method_ : method_type) (stub_ : stub_type) :
    invocation_element :=
  {| method := method_; stub := stub_ |}.

(** [invocation_element::operator ==], lines 529-532. *)
Definition invocation_eq (this rhs : invocation_element) : bool :=
  bool_decide (method rhs = method this) &&
  bool_decide (stub rhs = stub this).

Definition invocation_ne (this rhs : invocation_element) : bool :=
  negb (invocation_eq this rhs).

Definition invocation_assign (this other : invocation_element) :
    invocation_element :=
  {| method := method other; stub := stub other |}.

Record function_wrapper := Wrapper { invocation : invocation_element }.

Definition default : function_wrapper :=
  {| invocation := invocation_default |}.

Definition copy (other : function_wrapper) : function_wrapper :=
  {| invocation := invocation other |}.

Definition operator_assign (this other : function_wrapper) :
    function_wrapper :=
  {| invocation := invocation_assign (invocation this) (invocation other) |}.

Definition from_method (method_ : method_type) : function_wrapper :=
  {| invocation := invocation_of_method method_ (Some at_method_stub) |}.

Definition is_valid (this : function_wrapper) : bool :=
  negb (bool_decide (stub (invocation this) = None)).

Definition operator_bool (this : function_wrapper) : bool :=
  is_valid this.

Definition operator_eq (this rhs : function_wrapper) : bool :=
  invocation_eq (invocation this) (invocation rhs).

Definition operator_ne (this rhs : function_wrapper) : bool :=
  invocation_ne (invocation this) (invocation rhs).

(** The member functions of [TObject], applied to a receiver address. *)
Record program (W TReturn TParameters : Type) := Program {
  method_body : method_id -> pointer -> TParameters -> W -> TReturn * W
}.

Section Calls.
Context {W TReturn TParameters : Type}.
Variable prog : program W TReturn TParameters.
Variable policy : error_policy.

Local Abbreviation M := (M W TParameters).

(** [(object.*method)(params...)]. *)
Definition call_member (object : pointer) (method : method_type)
    (params : TParameters) : M TReturn :=
  match method with
  | Some m =>
      invoke (member_function m object) params (method_body prog m object)
  | None => undefined null_member_pointer
  end.

(** [method_stub], lines 547-550. *)
Definition method_stub (object : pointer) (method : method_type)
    (params : TParameters) : M TReturn :=
  call_member object method params.

Definition stub_code (a : stub_address) :
    pointer -> method_type -> TParameters -> M TReturn :=
  match a with
  | at_method_stub => method_stub
  end.

(** [operator()], lines 501-506. *)
Definition operator_call (this : function_wrapper) (object : pointer)
    (params : TParameters) : M TReturn :=
  do _ <- ETL_ASSERT policy (is_valid this) member_function_uninitialised ;
  match stub (invocation this) with
  | Some a => stub_code a object (method (invocation this)) params
  | None => undefined null_stub_dereference
  end.

(** [call_if] for a non-void [TReturn], lines 450-462; [etl::optional] is
    [option], empty when default-constructed. *)
Definition call_if (this : function_wrapper) (object : pointer)
    (params : TParameters) : M (option TReturn) :=
  let result : option TReturn := None in
  if is_valid this then
    do r <- operator_call this object params ;
    ret (Some r)
  else
    ret result.

(** [call_or] for a non-void [TReturn], lines 484-496. The alternative
    is a callable; it receives [params] and not the receiver. *)
Definition call_or (this : function_wrapper)
    (alternative : TParameters -> W -> TReturn * W)
    (object : pointer) (params : TParameters) : M TReturn :=
  if is_valid this then
    operator_call this object params
  else
    invoke fallback_callable params alternative.
End Calls.

Section VoidCalls.
Context {W TParameters : Type}.
Variable prog : program W unit TParameters.
Variable policy : error_policy.

(** [call_if] for a void [TReturn], lines 432-445. *)
Definition call_if_void (this : function_wrapper) (object : pointer)
    (params : TParameters) : M W TParameters bool :=
  if is_valid this then
    do _ <- operator_call prog policy this object params ;
    ret true
  else
    ret false.

(** [call_or] for a void [TReturn], lines 467-479. Whatever the
    alternative returns is dropped. *)
Definition call_or_void {A : Type} (this : function_wrapper)
    (alternative : TParameters -> W -> A * W)
    (object : pointer) (params : TParameters) : M W TParameters unit :=
  if is_valid this then
    do _ <- operator_call prog policy this object params ;
    ret tt
  else
    do _ <- invoke fallback_callable params alternative ;
    ret tt.
End VoidCalls.

End MutableMethod.

(** ** function_wrapper<TReturn(const TObject&, TParameters...)>
       (lines 561-750) *)

Module ConstMethod.

Definition const_method_type := option method_id.

Inductive stub_address :=
  | at_const_method_stub.

Global Instance stub_address_eq_dec : EqDecision stub_address.
Proof. solve_decision. Defined.

Definition const_stub_type := option stub_address.

Record invocation_element := Invocation {
  const_method : const_method_type;
  const_stub : const_stub_type
}.

Definition invocation_default : invocation_element :=
  {| const_method := None; const_stub := None |}.

Definition invocation_of_method (method_ : const_method_type)
    (stub_ : const_stub_type) : invocation_element :=
  {| const_method := method_; const_stub := stub_ |}.

(** [invocation_element::operator ==], lines 723-726. *)
Definition invocation_eq (this rhs : invocation_element) : bool :=
  bool_decide (const_method rhs = const_method this) &&
  bool_decide (const_stub rhs = const_stub this).

Definition invocation_ne (this rhs : invocation_element) : bool :=
  negb (invocation_eq this rhs).

Definition invocation_assign (this other : invocation_element) :
    invocation_element :=
  {| const_method := const_method other; const_stub := const_stub other |}.

Record function_wrapper := Wrapper { invocation : invocation_element }.

Definition default : function_wrapper :=
  {| invocation := invocation_default |}.

Definition copy (other : function_wrapper) : function_wrapper :=
  {| invocation := invocation other |}.

Definition operator_assign (this other : function_wrapper) :
    function_wrapper :=
  {| invocation := invocation_assign (invocation this) (invocation other) |}.

Definition from_method (const_method_ : const_method_type) :
    function_wrapper :=
  {| invocation :=
       invocation_of_method const_method_ (Some at_const_method_stub) |}.

Definition is_valid (this : function_wrapper) : bool :=
  negb (bool_decide (const_stub (invocation this) = None)).

Definition operator_bool (this : function_wrapper) : bool :=
  is_valid this.

Definition operator_eq (this rhs : function_wrapper) : bool :=
  invocation_eq (invocation this) (invocation rhs).

Definition operator_ne (this rhs : function_wrapper) : bool :=
  invocation_ne (invocation this) (invocation rhs).

(** The const member functions of [TObject], applied to a receiver. *)
Record program (W TReturn TParameters : Type) := Program {
  const_method_body :
    method_id -> pointer -> TParameters -> W -> TReturn * W
}.

Section Calls.
Context {W TReturn TParameters : Type}.
Variable prog : program W TReturn TParameters.
Variable policy : error_policy.

Local Abbreviation M := (M W TParameters).

(** [(object.*const_method)(params...)]. *)
Definition call_member (object : pointer) (const_method : const_method_type)
    (params : TParameters) : M TReturn :=
  match const_method with
  | Some m =>
      invoke (const_member_function m object) params
        (const_method_body prog m object)
  | None => undefined null_member_pointer
  end.

(** [const_method_stub], lines 741-744. *)
Definition const_method_stub (object : pointer)
    (const_method : const_method_type) (params : TParameters) : M TReturn :=
  call_member object const_method params.

Definition stub_code (a : stub_address) :
    pointer -> const_method_type -> TParameters -> M TReturn :=
  match a with
  | at_const_method_stub => const_method_stub
  end.

(** [operator()], lines 695-700. *)
Definition operator_call (this : function_wrapper) (object : pointer)
    (params : TParameters) : M TReturn :=
  do _ <- ETL_ASSERT policy (is_valid this) member_function_uninitialised ;
  match const_stub (invocation this) with
  | Some a => stub_code a object (const_method (invocation this)) params
  | None => undefined null_stub_dereference
  end.

(** [call_if] for a non-void [TReturn], lines 644-656; [etl::optional] is
    [option], empty when default-constructed. *)
Definition call_if (this : function_wrapper) (object : pointer)
    (params : TParameters) : M (option TReturn) :=
  let result : option TReturn := None in
  if is_valid this then
    do r <- operator_call this object params ;
    ret (Some r)
  else
    ret result.

(** [call_or] for a non-void [TReturn], lines 678-690. *)
Definition call_or (this : function_wrapper)
    (alternative : TParameters -> W -> TReturn * W)
    (object : pointer) (params : TParameters) : M TReturn :=
  if is_valid this then
    operator_call this object params
  else
    invoke fallback_callable params alternative.
End Calls.

Section VoidCalls.
Context {W TParameters : Type}.
Variable prog : program W unit TParameters.
Variable policy : error_policy.

(** [call_if] for a void [TReturn], lines 626-639. *)
Definition call_if_void (this : function_wrapper) (object : pointer)
    (params : TParameters) : M W TParameters bool :=
  if is_valid this then
    do _ <- operator_call prog policy this object params ;
    ret true
  else
    ret false.

(** [call_or] for a void [TReturn], lines 661-673. *)
Definition call_or_void {A : Type} (this : function_wrapper)
    (alternative : TParameters -> W -> A * W)
    (object : pointer) (params : TParameters) : M W TParameters unit :=
  if is_valid this then
    do _ <- operator_call prog policy this object params ;
    ret tt
  else
    do _ <- invoke fallback_callable params alternative ;
    ret tt.
End VoidCalls.

End ConstMethod.

(** ** A small client program

    The scenario of the spec (a wrapper of [square]) and the callables the
    examples below bind: two free functions with the same behaviour at
    distinct addresses, an accumulating functor class with two instances,
    and a counter class with a mutable and a const member function. The heap
    maps the address of an object to the integer it holds. *)

Module Client.

Definition client_heap := pointer -> Z.

Definition store (p : pointer) (v : Z) (h : client_heap) : client_heap :=
  fun q => if bool_decide (q = p) then v else h q.

Definition square_address : pointer := 4096%Z.
Definition square_twin_address : pointer := 4112%Z.

Definition square (x : Z) (h : client_heap) : Z * client_heap :=
  ((x * x)%Z, h).

(** [struct accumulator { int total; int operator()(int x); }]. *)
Definition accumulator : class_id := 1%N.
Definition first_accumulator : pointer := 32768%Z.
Definition second_accumulator : pointer := 32784%Z.

Definition accumulate (p : pointer) (x : Z) (h : client_heap) :
    Z * client_heap :=
  ((h p + x)%Z, store p (h p + x)%Z h).

Definition accumulate_const (p : pointer) (x : Z) (h : client_heap) :
    Z * client_heap :=
  ((h p + x)%Z, h).

Definition is_accumulator (TLambda : class_id) (p : pointer) : bool :=
  bool_decide (TLambda = accumulator) &&
  (bool_decide (p = first_accumulator) ||
   bool_decide (p = second_accumulator)).

Definition free_program : FreeCallable.program client_heap Z Z :=
  {| FreeCallable.function_body := fun f =>
       if bool_decide (f = square_address) || bool_decide (f = square_twin_address)
       then Some square else None;
     FreeCallable.functor_body := fun TLambda p =>
       if is_accumulator TLambda p then Some (accumulate p) else None;
     FreeCallable.const_functor_body := fun TLambda p =>
       if is_accumulator TLambda p then Some (accumulate_const p) else None |}.

(** A void function: [void bump(int x)] adds [x] to the cell at 64. *)
Definition bump_address : pointer := 4128%Z.

Definition bump (x : Z) (h : client_heap) : unit * client_heap :=
  (tt, store 64%Z (h 64%Z + x)%Z h).

Definition void_free_program : FreeCallable.program client_heap unit Z :=
  {| FreeCallable.function_body := fun f =>
       if bool_decide (f = bump_address) then Some bump else None;
     FreeCallable.functor_body := fun _ _ => None;
     FreeCallable.const_functor_body := fun _ _ => None |}.

(** [struct counter { int value; int add(int x); int peek(int x) const;
    void reset(int x); void show(int x) const; }]: every member function
    has identity 0 in its own wrapper's program. *)
Definition add (object : pointer) (x : Z) (h : client_heap) :
    Z * client_heap :=
  ((h object + x)%Z, store object (h object + x)%Z h).

Definition peek (object : pointer) (x : Z) (h : client_heap) :
    Z * client_heap :=
  ((h object + x)%Z, h).

Definition reset (object : pointer) (x : Z) (h : client_heap) :
    unit * client_heap :=
  (tt, store object x h).

Definition show (object : pointer) (x : Z) (h : client_heap) :
    unit * client_heap :=
  (tt, h).

Definition method_program : MutableMethod.program client_heap Z Z :=
  {| MutableMethod.method_body := fun _ => add |}.

Definition void_method_program : MutableMethod.program client_heap unit Z :=
  {| MutableMethod.method_body := fun _ => reset |}.

Definition const_method_program : ConstMethod.program client_heap Z Z :=
  {| ConstMethod.const_method_body := fun _ => peek |}.

Definition void_const_method_program :
    ConstMethod.program client_heap unit Z :=
  {| ConstMethod.const_method_body := fun _ => show |}.

(** A fallback callable for [call_or]: [int minus(int x)] returns [-x]. *)
Definition minus (x : Z) (h : client_heap) : Z * client_heap :=
  ((- x)%Z, h).

Definition a_counter : pointer := 49152%Z.

(** Every cell holds 7 and nothing has been called or reported. *)
Definition initial : world client_heap Z :=
  {| heap := fun _ => 7%Z; calls := []; reported := [] |}.

End Client.

(** ** Vocabulary of the properties *)

(** The user code a bound free-callable wrapper enters when it is called:
    the function whose pointer is stored, or the call operator of the
    object whose address is stored. An unbound wrapper has no target. *)
Definition free_target (w : FreeCallable.function_wrapper) : option callee :=
  let i := FreeCallable.invocation w in
  match FreeCallable.stub i with
  | Some FreeCallable.at_function_stub =>
      Some (free_function (FreeCallable.func (FreeCallable.alternate i)))
  | Some (FreeCallable.at_lambda_stub TLambda) =>
      Some (functor_object TLambda
              (FreeCallable.object (FreeCallable.alternate i)))
  | Some (FreeCallable.at_const_lambda_stub TLambda) =>
      Some (const_functor_object TLambda
              (FreeCallable.object (FreeCallable.alternate i)))
  | None => None
  end.

(** A world in which exactly the call [c(params)] was added to [s], with
    the heap that the call left and nothing new reported. *)
Definition after_call {W TParameters : Type} (c : callee)
    (params : TParameters) (h : W) (s : world W TParameters) :
    world W TParameters :=
  {| heap := h; calls := calls s ++ [Call c params]; reported := reported s |}.

(** The member function a bound method wrapper enters on [object]. *)
Definition method_target (w : MutableMethod.function_wrapper)
    (object : pointer) : option callee :=
  let i := MutableMethod.invocation w in
  match MutableMethod.stub i, MutableMethod.method i with
  | Some MutableMethod.at_method_stub, Some m =>
      Some (member_function m object)
  | _, _ => None
  end.

Definition const_method_target (w : ConstMethod.function_wrapper)
    (object : pointer) : option callee :=
  let i := ConstMethod.invocation w in
  match ConstMethod.const_stub i, ConstMethod.const_method i with
  | Some ConstMethod.at_const_method_stub, Some m =>
      Some (const_member_function m object)
  | _, _ => None
  end.

(** A computation that hands no condition to the error facility. *)
Definition raises_nothing {W TParameters A : Type}
    (m : M W TParameters A) : Prop :=
  forall s, reported (snd (m s)) = reported s.

(** A computation that hands exactly the condition [e] to the facility. *)
Definition raises {W TParameters A : Type} (e : etl_exception)
    (m : M W TParameters A) (s : world W TParameters) : Prop :=
  reported (snd (m s)) = reported s ++ [e].

(** The target of a bound wrapper together with the code behind it, when
    the stored pointer designates code. *)
Definition free_code {W TReturn TParameters : Type}
    (prog : FreeCallable.program W TReturn TParameters)
    (w : FreeCallable.function_wrapper) :
    option (callee * (TParameters -> W -> TReturn * W)) :=
  match free_target w with
  | Some (free_function f) =>
      option_map (pair (free_function f))
        (FreeCallable.function_body prog f)
  | Some (functor_object TLambda p) =>
      option_map (pair (functor_object TLambda p))
        (FreeCallable.functor_body prog TLambda p)
  | Some (const_functor_object TLambda p) =>
      option_map (pair (const_functor_object TLambda p))
        (FreeCallable.const_functor_body prog TLambda p)
  | _ => None
  end.

Definition method_code {W TReturn TParameters : Type}
    (prog : MutableMethod.program W TReturn TParameters)
    (w : MutableMethod.function_wrapper) (object : pointer) :
    option (callee * (TParameters -> W -> TReturn * W)) :=
  match method_target w object with
  | Some (member_function m receiver) =>
      Some (member_function m receiver,
            MutableMethod.method_body prog m receiver)
  | _ => None
  end.

Definition const_method_code {W TReturn TParameters : Type}
    (prog : ConstMethod.program W TReturn TParameters)
    (w : ConstMethod.function_wrapper) (object : pointer) :
    option (callee * (TParameters -> W -> TReturn * W)) :=
  match const_method_target w object with
  | Some (const_member_function m receiver) =>
      Some (const_member_function m receiver,
            ConstMethod.const_method_body prog m receiver)
  | _ => None
  end.

(** The world after running [body] on [params] as the call of [c]. *)
Definition after_body {W TParameters TReturn : Type} (c : callee)
    (params : TParameters) (body : TParameters -> W -> TReturn * W)
    (s : world W TParameters) : world W TParameters :=
  after_call c params (snd (body params (heap s))) s.

(** The contract of [call_if]. [valid] is the wrapper's [is_valid], [code]
    the target the wrapper is bound to and its code, [call] the wrapper's
    [operator()] on [params] and [guarded] its [call_if]. Unbound: [guarded]
    returns [absent] and leaves the world as it is, so nothing is called.
    Bound: [call] returns the target's result [r] after exactly one call, of
    the target, and [guarded] returns [present r] in that same world. *)
Definition guarded_call {W TParameters TReturn B : Type}
    (valid : bool)
    (code : option (callee * (TParameters -> W -> TReturn * W)))
    (params : TParameters)
    (call : M W TParameters TReturn) (guarded : M W TParameters B)
    (absent : B) (present : TReturn -> B) : Prop :=
  forall s : world W TParameters,
    if valid then
      forall c body,
        code = Some (c, body) ->
        call s =
          (Normal (fst (body params (heap s))), after_body c params body s) /\
        guarded s =
          (Normal (present (fst (body params (heap s)))),
           after_body c params body s)
    else
      guarded s = (Normal absent, s).

(** What becomes of a wrapper object under one member function call: a
    const member function leaves it as it is, the assignment rebinds it. *)
Inductive member_call (wrapper : Type) :=
  | const_member_call
  | assignment_from (other : wrapper).

Arguments const_member_call {wrapper}.
Arguments assignment_from {wrapper} other.

Definition this_after {wrapper : Type}
    (assign : wrapper -> wrapper -> wrapper) (this : wrapper)
    (op : member_call wrapper) : wrapper :=
  match op with
  | const_member_call => this
  | assignment_from other => assign this other
  end.

Definition is_rebinding {wrapper : Type} (op : member_call wrapper) : bool :=
  match op with
  | const_member_call => false
  | assignment_from _ => true
  end.

(** An outcome in which the wrapper's own failure modes did not occur: the
    error facility neither threw the exception handed to it nor halted the
    program, and no null stub was dereferenced. What is left is a normal
    return, or an undefined call through a stored pointer that designates
    no code. *)
Definition guarded_outcome {A : Type} (o : outcome A) : Prop :=
  match o with
  | Normal _ => True
  | Undefined u => u <> null_stub_dereference
  | Thrown _ => False
  | Halted => False
  end.

(** A computation that enters user code at most once, and then with the
    arguments [params]: either the heap and the list of calls are as
    before, or exactly one call has been added and nothing was reported. *)
Definition at_most_one_call {W TParameters A : Type}
    (params : TParameters) (m : M W TParameters A) : Prop :=
  forall s : world W TParameters,
    (heap (snd (m s)) = heap s /\ calls (snd (m s)) = calls s) \/
    (exists c h, snd (m s) = after_call c params h s).

(** * Properties *)

Unset Implicit Arguments.

(** ** The computation monad *)

Section MonadFacts.
Context {W TParameters : Type}.

Lemma bind_normal {A B : Type} (m : M W TParameters A)
    (k : A -> M W TParameters B) (s s' : world W TParameters) (a : A) :
  m s = (Normal a, s') -> bind m k s = k a s'.
Proof. intros Hm. unfold bind. now rewrite Hm. Qed.

Lemma invoke_spec {A : Type} (c : callee) (params : TParameters)
    (body : TParameters -> W -> A * W) (s : world W TParameters) :
  invoke c params body s =
    (Normal (fst (body params (heap s))),
     after_call c params (snd (body params (heap s))) s).
Proof. unfold invoke, after_call. now destruct (body params (heap s)). Qed.

End MonadFacts.

(** ** The wrapper of free functions, lambdas and functors *)

Section FreeCallableFacts.
Import FreeCallable.
Context {W TReturn TParameters : Type}.
Variable prog : program W TReturn TParameters.

Lemma free_is_valid_bound (w : function_wrapper) :
  is_valid w = true <-> exists a, stub (invocation w) = Some a.
Proof.
  unfold is_valid. destruct (stub (invocation w)) as [a|]; simpl.
  - split; [eauto | reflexivity].
  - split; [discriminate | intros [a Ha]; discriminate].
Qed.

Lemma free_is_valid_unbound (w : function_wrapper) :
  is_valid w = false <-> stub (invocation w) = None.
Proof.
  unfold is_valid. destruct (stub (invocation w)) as [a|]; simpl.
  - split; discriminate.
  - split; reflexivity.
Qed.

(** What a call through a bound wrapper does: it either enters the target
    once, or the stored pointer designates no code and nothing happens. *)
Lemma free_stub_code_outcome (a : stub_address) (w : function_wrapper)
    (params : TParameters) (s : world W TParameters) :
  stub (invocation w) = Some a ->
  (exists c r h,
      free_target w = Some c /\
      stub_code prog a (invocation w) params s =
        (Normal r, after_call c params h s)) \/
  (exists u,
      u <> null_stub_dereference /\
      stub_code prog a (invocation w) params s = (Undefined u, s)).
Proof.
  intros Hstub. unfold free_target. rewrite Hstub.
  destruct a as [|TLambda|TLambda]; simpl;
    unfold function_stub, lambda_stub, const_lambda_stub,
      call_function, call_functor, call_const_functor.
  - destruct (function_body prog _) as [body|].
    + left. do 3 eexists. split; [reflexivity | apply invoke_spec].
    + right. eexists. split; [|reflexivity]. discriminate.
  - destruct (functor_body prog _ _) as [body|].
    + left. do 3 eexists. split; [reflexivity | apply invoke_spec].
    + right. eexists. split; [|reflexivity]. discriminate.
  - destruct (const_functor_body prog _ _) as [body|].
    + left. do 3 eexists. split; [reflexivity | apply invoke_spec].
    + right. eexists. split; [|reflexivity]. discriminate.
Qed.

Lemma free_operator_call_bound (a : stub_address) (w : function_wrapper)
    (params : TParameters) :
  stub (invocation w) = Some a ->
  operator_call prog w params = stub_code prog a (invocation w) params.
Proof. intros Hstub. unfold operator_call. now rewrite Hstub. Qed.

Lemma free_operator_call_unbound (w : function_wrapper)
    (params : TParameters) (s : world W TParameters) :
  stub (invocation w) = None ->
  operator_call prog w params s = (Undefined null_stub_dereference, s).
Proof. intros Hstub. unfold operator_call. now rewrite Hstub. Qed.

(** Every call of [operator()] ends in one of three ways. *)
Lemma free_operator_call_outcome (w : function_wrapper)
    (params : TParameters) (s : world W TParameters) :
  (exists c r h,
      free_target w = Some c /\
      operator_call prog w params s = (Normal r, after_call c params h s)) \/
  (exists u, operator_call prog w params s = (Undefined u, s)).
Proof.
  destruct (stub (invocation w)) as [a|] eqn:Hstub.
  - rewrite (free_operator_call_bound a w params Hstub).
    destruct (free_stub_code_outcome a w params s Hstub)
      as [(c & r & h & Hc & Hrun)|(u & _ & Hrun)]; eauto 10.
  - right. eexists. now apply free_operator_call_unbound.
Qed.

Lemma free_operator_call_reported (w : function_wrapper)
    (params : TParameters) (s : world W TParameters) :
  reported (snd (operator_call prog w params s)) = reported s.
Proof.
  destruct (free_operator_call_outcome w params s)
    as [(c & r & h & _ & Hrun)|(u & Hrun)]; now rewrite Hrun.
Qed.

End FreeCallableFacts.

Section FreeCallableClaims.
Import FreeCallable.
Context {W TReturn TParameters : Type}.
Variable prog : program W TReturn TParameters.

(** C1. A wrapper constructed from the free function [f] is bound, and
    calling it with [params] is calling [f(params)] directly: the same
    result, the same heap afterwards, one call of [f] made and nothing
    reported. *)
Theorem free_function_wrapper_calls_function
    (f : function_type) (body : TParameters -> W -> TReturn * W)
    (params : TParameters) (s : world W TParameters) :
  function_body prog f = Some body ->
  is_valid (from_function f) = true /\
  operator_bool (from_function f) = true /\
  operator_call prog (from_function f) params s =
    call_function prog f params s /\
  operator_call prog (from_function f) params s =
    (Normal (fst (body params (heap s))),
     after_call (free_function f) params (snd (body params (heap s))) s).
Proof.
  intros Hbody. repeat split.
  unfold operator_call, from_function; simpl.
  unfold function_stub, call_function; simpl.
  unfold func; simpl. rewrite Hbody. apply invoke_spec.
Qed.

(** C5. [operator()] of the free-callable wrapper checks nothing. On a
    bound wrapper the call is the call of the stub the wrapper points to and
    is never a null-stub dereference. On an unbound wrapper it is the
    dereference of a null stub, which is undefined; no condition is reported
    to the error facility, nothing is thrown and the program is not halted
    by it. *)
Theorem free_operator_call_is_unchecked
    (w : function_wrapper) (params : TParameters) (s : world W TParameters) :
  (is_valid w = true ->
     exists a,
       stub (invocation w) = Some a /\
       operator_call prog w params s =
         stub_code prog a (invocation w) params s /\
       fst (operator_call prog w params s) <>
         Undefined null_stub_dereference) /\
  (is_valid w = false ->
     operator_call prog w params s = (Undefined null_stub_dereference, s)) /\
  reported (snd (operator_call prog w params s)) = reported s /\
  (forall e, fst (operator_call prog w params s) <> Thrown e) /\
  fst (operator_call prog w params s) <> Halted.
Proof.
  split; [|split; [|split; [|split]]].
  - intros Hvalid. apply free_is_valid_bound in Hvalid as [a Hstub].
    exists a. split; [exact Hstub|].
    rewrite (free_operator_call_bound prog a w params Hstub).
    split; [reflexivity|].
    destruct (free_stub_code_outcome prog a w params s Hstub)
      as [(c & r & h & _ & Hrun)|(u & Hu & Hrun)]; rewrite Hrun; simpl.
    + discriminate.
    + intros Heq. apply Hu. congruence.
  - intros Hvalid. apply free_is_valid_unbound in Hvalid.
    now apply free_operator_call_unbound.
  - apply free_operator_call_reported.
  - intros e.
    destruct (free_operator_call_outcome prog w params s)
      as [(c & r & h & _ & Hrun)|(u & Hrun)]; rewrite Hrun; discriminate.
  - destruct (free_operator_call_outcome prog w params s)
      as [(c & r & h & _ & Hrun)|(u & Hrun)]; rewrite Hrun; discriminate.
Qed.

End FreeCallableClaims.

Lemma free_function_wrapper_calls_function_witness :
  FreeCallable.function_body Client.free_program Client.square_address =
    Some Client.square /\
  FreeCallable.operator_call Client.free_program
    (FreeCallable.from_function Client.square_address) 4%Z Client.initial =
    (Normal 16%Z,
     after_call (free_function Client.square_address) 4%Z
       (heap Client.initial) Client.initial).
Proof.
  split; [reflexivity|].
  apply (free_function_wrapper_calls_function Client.free_program
           Client.square_address Client.square 4%Z Client.initial).
  reflexivity.
Defined.

Lemma free_operator_call_is_unchecked_witness :
  FreeCallable.is_valid FreeCallable.default = false /\
  FreeCallable.operator_call Client.free_program FreeCallable.default 4%Z
    Client.initial = (Undefined null_stub_dereference, Client.initial) /\
  FreeCallable.is_valid
    (FreeCallable.from_lambda Client.accumulator Client.first_accumulator) =
    true /\
  fst (FreeCallable.operator_call Client.free_program
         (FreeCallable.from_lambda Client.accumulator
            Client.first_accumulator) 4%Z Client.initial) <>
    Undefined null_stub_dereference.
Proof.
  split; [reflexivity|]. split.
  - apply (free_operator_call_is_unchecked Client.free_program
             FreeCallable.default 4%Z Client.initial). reflexivity.
  - split; [reflexivity|].
    destruct (proj1 (free_operator_call_is_unchecked Client.free_program
                (FreeCallable.from_lambda Client.accumulator
                   Client.first_accumulator) 4%Z Client.initial) eq_refl)
      as (a & _ & _ & Hne).
    exact Hne.
Defined.

(** ** Equality of free-callable wrappers *)

Ltac unfold_free_eq :=
  unfold FreeCallable.operator_ne, FreeCallable.invocation_ne,
    FreeCallable.operator_eq, FreeCallable.invocation_eq,
    FreeCallable.from_function, FreeCallable.from_lambda,
    FreeCallable.from_const_lambda, FreeCallable.default,
    FreeCallable.invocation_of_func, FreeCallable.invocation_of_object,
    FreeCallable.invocation_default, FreeCallable.alternate_of_func,
    FreeCallable.alternate_of_object, FreeCallable.alternate_default,
    FreeCallable.func, FreeCallable.object;
  simpl.

Ltac decide_pointers :=
  repeat case_bool_decide; simpl in *; try reflexivity; try congruence.

Section FreeCallableEquality.
Import FreeCallable.

Lemma free_invocation_eq_iff (a b : invocation_element) :
  invocation_eq a b = true <->
  stub a = stub b /\
  (stub a = None \/
   (stub a = Some at_function_stub /\
    func (alternate b) = func (alternate a)) \/
   object (alternate b) = object (alternate a)).
Proof.
  unfold invocation_eq.
  rewrite Bool.andb_true_iff, !Bool.orb_true_iff, Bool.andb_true_iff.
  rewrite !bool_decide_eq_true. tauto.
Qed.

Lemma free_eq_same_function (f : function_type) :
  operator_eq (from_function f) (from_function f) = true.
Proof. unfold_free_eq. decide_pointers. Qed.

Lemma free_eq_distinct_functions (f g : function_type) :
  f <> g -> operator_eq (from_function f) (from_function g) = false.
Proof. intros Hfg. unfold_free_eq. decide_pointers. Qed.

Lemma free_eq_distinct_objects (a b : stub_address) (p q : pointer) :
  p <> q ->
  a <> at_function_stub ->
  invocation_eq (invocation_of_object p (Some a))
    (invocation_of_object q (Some b)) = false.
Proof. intros Hpq Ha. unfold_free_eq. decide_pointers. Qed.

Lemma free_eq_distinct_stubs (a b : stub_address) (p q : pointer) :
  a <> b ->
  invocation_eq (Invocation (Alternate p) (Some a))
    (Invocation (Alternate q) (Some b)) = false.
Proof. intros Hab. unfold_free_eq. decide_pointers. Qed.

(** C4. Two free-callable wrappers are equal exactly when their stubs are
    equal and either both are null, or the stub is the free-function stub and
    the function pointers are equal, or the object addresses are equal. So
    two wrappers of one function pointer are equal, two wrappers of distinct
    function pointers are not, and two wrappers of distinct functor
    instances (of one class or of two, through const or non-const
    references) are not: the comparison reads addresses only, never the
    heap, so the instances' state plays no part. *)
Theorem free_wrapper_equality_is_by_identity
    (w1 w2 : function_wrapper) (f g : function_type)
    (TLambda TLambda' : class_id) (p q : pointer) :
  f <> g ->
  p <> q ->
  (operator_eq w1 w2 = true <->
     stub (invocation w1) = stub (invocation w2) /\
     (stub (invocation w1) = None \/
      (stub (invocation w1) = Some at_function_stub /\
       func (alternate (invocation w2)) =
         func (alternate (invocation w1))) \/
      object (alternate (invocation w2)) =
        object (alternate (invocation w1)))) /\
  operator_ne w1 w2 = negb (operator_eq w1 w2) /\
  operator_eq (from_function f) (from_function f) = true /\
  operator_eq (from_function f) (from_function g) = false /\
  operator_eq (from_lambda TLambda p) (from_lambda TLambda' q) = false /\
  operator_eq (from_const_lambda TLambda p) (from_const_lambda TLambda' q) =
    false /\
  operator_eq (from_lambda TLambda p) (from_const_lambda TLambda' q) = false /\
  operator_eq (from_const_lambda TLambda p) (from_lambda TLambda' q) = false.
Proof.
  intros Hfg Hpq. split; [|split; [|split; [|split]]].
  - apply free_invocation_eq_iff.
  - reflexivity.
  - apply free_eq_same_function.
  - now apply free_eq_distinct_functions.
  - repeat split; apply free_eq_distinct_objects;
      solve [exact Hpq | discriminate].
Qed.

(** C10. For one functor object at address [p], the wrapper made from a
    non-const reference holds [lambda_stub<TLambda>], the wrapper made from
    a const reference holds [const_lambda_stub<TLambda>]; both hold the
    address [p], the stubs differ, and the two wrappers compare unequal. *)
Theorem const_and_non_const_lambda_wrappers_are_unequal
    (TLambda : class_id) (p : pointer) :
  stub (invocation (from_lambda TLambda p)) = Some (at_lambda_stub TLambda) /\
  stub (invocation (from_const_lambda TLambda p)) =
    Some (at_const_lambda_stub TLambda) /\
  bool_decide (stub (invocation (from_lambda TLambda p)) =
               stub (invocation (from_const_lambda TLambda p))) = false /\
  object (alternate (invocation (from_lambda TLambda p))) = p /\
  object (alternate (invocation (from_const_lambda TLambda p))) = p /\
  operator_eq (from_lambda TLambda p) (from_const_lambda TLambda p) = false /\
  operator_eq (from_const_lambda TLambda p) (from_lambda TLambda p) = false /\
  operator_ne (from_lambda TLambda p) (from_const_lambda TLambda p) = true.
Proof.
  assert (Hstubs : at_lambda_stub TLambda <> at_const_lambda_stub TLambda)
    by discriminate.
  assert (Hne : operator_eq (from_lambda TLambda p)
                  (from_const_lambda TLambda p) = false)
    by (apply free_eq_distinct_stubs; exact Hstubs).
  split; [reflexivity|]. split; [reflexivity|]. split.
  { apply bool_decide_eq_false. simpl. congruence. }
  split; [reflexivity|]. split; [reflexivity|]. split; [exact Hne|]. split.
  - apply free_eq_distinct_stubs. congruence.
  - unfold operator_ne, invocation_ne.
    change (negb (operator_eq (from_lambda TLambda p)
                    (from_const_lambda TLambda p)) = true).
    now rewrite Hne.
Qed.

End FreeCallableEquality.

Lemma free_wrapper_equality_is_by_identity_witness :
  Client.square_address <> Client.square_twin_address /\
  Client.first_accumulator <> Client.second_accumulator /\
  heap Client.initial Client.first_accumulator =
    heap Client.initial Client.second_accumulator /\
  FreeCallable.operator_eq
    (FreeCallable.from_function Client.square_address)
    (FreeCallable.from_function Client.square_address) = true /\
  FreeCallable.operator_eq
    (FreeCallable.from_function Client.square_address)
    (FreeCallable.from_function Client.square_twin_address) = false /\
  FreeCallable.operator_eq
    (FreeCallable.from_lambda Client.accumulator Client.first_accumulator)
    (FreeCallable.from_lambda Client.accumulator Client.second_accumulator) =
    false.
Proof.
  assert (Hf : Client.square_address <> Client.square_twin_address)
    by discriminate.
  assert (Hp : Client.first_accumulator <> Client.second_accumulator)
    by discriminate.
  split; [exact Hf|]. split; [exact Hp|]. split; [reflexivity|].
  destruct (free_wrapper_equality_is_by_identity
              FreeCallable.default FreeCallable.default
              Client.square_address Client.square_twin_address
              Client.accumulator Client.accumulator
              Client.first_accumulator Client.second_accumulator Hf Hp)
    as (_ & _ & Hsame & Hfun & Hobj & _).
  split; [exact Hsame|]. split; [exact Hfun | exact Hobj].
Defined.

(** ** The wrappers of member functions *)

Section MutableMethodFacts.
Import MutableMethod.
Context {W TReturn TParameters : Type}.
Variable prog : program W TReturn TParameters.
Variable policy : error_policy.

Lemma method_is_valid_bound (w : function_wrapper) :
  is_valid w = true <-> stub (invocation w) = Some at_method_stub.
Proof.
  unfold is_valid. destruct (stub (invocation w)) as [[]|]; simpl.
  - split; reflexivity.
  - split; discriminate.
Qed.

Lemma method_is_valid_unbound (w : function_wrapper) :
  is_valid w = false <-> stub (invocation w) = None.
Proof.
  unfold is_valid. destruct (stub (invocation w)) as [[]|]; simpl.
  - split; discriminate.
  - split; reflexivity.
Qed.

Lemma method_call_member_outcome (object : pointer) (m : method_type)
    (params : TParameters) (s : world W TParameters) :
  (exists id r h,
      m = Some id /\
      call_member prog object m params s =
        (Normal r, after_call (member_function id object) params h s)) \/
  (m = None /\
   call_member prog object m params s = (Undefined null_member_pointer, s)).
Proof.
  destruct m as [id|]; simpl.
  - left. do 3 eexists. split; [reflexivity | apply invoke_spec].
  - right. split; reflexivity.
Qed.

Lemma method_operator_call_bound (w : function_wrapper) (object : pointer)
    (params : TParameters) (s : world W TParameters) :
  is_valid w = true ->
  operator_call prog policy w object params s =
    call_member prog object (method (invocation w)) params s.
Proof.
  intros Hvalid. unfold operator_call. rewrite Hvalid.
  apply method_is_valid_bound in Hvalid. rewrite Hvalid. reflexivity.
Qed.

Lemma method_operator_call_unbound (w : function_wrapper) (object : pointer)
    (params : TParameters) (s : world W TParameters) :
  is_valid w = false ->
  operator_call prog policy w object params s =
    (match policy with
     | log_and_continue => Undefined null_stub_dereference
     | raise_error => Thrown member_function_uninitialised
     | halt => Halted
     end,
     report member_function_uninitialised s).
Proof.
  intros Hvalid. unfold operator_call. rewrite Hvalid.
  apply method_is_valid_unbound in Hvalid. rewrite Hvalid.
  now destruct policy.
Qed.

Lemma method_call_member_reported (object : pointer) (m : method_type)
    (params : TParameters) (s : world W TParameters) :
  reported (snd (call_member prog object m params s)) = reported s.
Proof.
  destruct (method_call_member_outcome object m params s)
    as [(id & r & h & _ & Hrun)|[_ Hrun]]; now rewrite Hrun.
Qed.

Lemma method_operator_call_bound_reported (w : function_wrapper)
    (object : pointer) (params : TParameters) (s : world W TParameters) :
  is_valid w = true ->
  reported (snd (operator_call prog policy w object params s)) = reported s.
Proof.
  intros Hvalid. rewrite method_operator_call_bound by exact Hvalid.
  apply method_call_member_reported.
Qed.

End MutableMethodFacts.

Section ConstMethodFacts.
Import ConstMethod.
Context {W TReturn TParameters : Type}.
Variable prog : program W TReturn TParameters.
Variable policy : error_policy.

Lemma const_method_is_valid_bound (w : function_wrapper) :
  is_valid w = true <-> const_stub (invocation w) = Some at_const_method_stub.
Proof.
  unfold is_valid. destruct (const_stub (invocation w)) as [[]|]; simpl.
  - split; reflexivity.
  - split; discriminate.
Qed.

Lemma const_method_is_valid_unbound (w : function_wrapper) :
  is_valid w = false <-> const_stub (invocation w) = None.
Proof.
  unfold is_valid. destruct (const_stub (invocation w)) as [[]|]; simpl.
  - split; discriminate.
  - split; reflexivity.
Qed.

Lemma const_method_call_member_outcome (object : pointer)
    (m : const_method_type) (params : TParameters)
    (s : world W TParameters) :
  (exists id r h,
      m = Some id /\
      call_member prog object m params s =
        (Normal r, after_call (const_member_function id object) params h s)) \/
  (m = None /\
   call_member prog object m params s = (Undefined null_member_pointer, s)).
Proof.
  destruct m as [id|]; simpl.
  - left. do 3 eexists. split; [reflexivity | apply invoke_spec].
  - right. split; reflexivity.
Qed.

Lemma const_method_operator_call_bound (w : function_wrapper)
    (object : pointer) (params : TParameters) (s : world W TParameters) :
  is_valid w = true ->
  operator_call prog policy w object params s =
    call_member prog object (const_method (invocation w)) params s.
Proof.
  intros Hvalid. unfold operator_call. rewrite Hvalid.
  apply const_method_is_valid_bound in Hvalid. rewrite Hvalid. reflexivity.
Qed.

Lemma const_method_operator_call_unbound (w : function_wrapper)
    (object : pointer) (params : TParameters) (s : world W TParameters) :
  is_valid w = false ->
  operator_call prog policy w object params s =
    (match policy with
     | log_and_continue => Undefined null_stub_dereference
     | raise_error => Thrown member_function_uninitialised
     | halt => Halted
     end,
     report member_function_uninitialised s).
Proof.
  intros Hvalid. unfold operator_call. rewrite Hvalid.
  apply const_method_is_valid_unbound in Hvalid. rewrite Hvalid.
  now destruct policy.
Qed.

Lemma const_method_call_member_reported (object : pointer)
    (m : const_method_type) (params : TParameters)
    (s : world W TParameters) :
  reported (snd (call_member prog object m params s)) = reported s.
Proof.
  destruct (const_method_call_member_outcome object m params s)
    as [(id & r & h & _ & Hrun)|[_ Hrun]]; now rewrite Hrun.
Qed.

Lemma const_method_operator_call_bound_reported (w : function_wrapper)
    (object : pointer) (params : TParameters) (s : world W TParameters) :
  is_valid w = true ->
  reported (snd (operator_call prog policy w object params s)) = reported s.
Proof.
  intros Hvalid. rewrite const_method_operator_call_bound by exact Hvalid.
  apply const_method_call_member_reported.
Qed.

End ConstMethodFacts.

(** ** Who reports to the error facility *)

Section RaisesNothing.
Context {W TParameters : Type}.

Lemma raises_nothing_ret {A : Type} (a : A) :
  raises_nothing (ret (W := W) (TParameters := TParameters) a).
Proof. intros s. reflexivity. Qed.

Lemma raises_nothing_invoke {A : Type} (c : callee) (params : TParameters)
    (body : TParameters -> W -> A * W) :
  raises_nothing (invoke c params body).
Proof. intros s. now rewrite invoke_spec. Qed.

Lemma raises_nothing_bind {A B : Type} (m : M W TParameters A)
    (k : A -> M W TParameters B) :
  raises_nothing m ->
  (forall a, raises_nothing (k a)) ->
  raises_nothing (bind m k).
Proof.
  intros Hm Hk s. unfold bind. specialize (Hm s).
  destruct (m s) as [[a|e| |u] s']; simpl in *; try exact Hm.
  now rewrite Hk.
Qed.

Lemma not_raises_when_nothing_reported {A : Type} (e : etl_exception)
    (m : M W TParameters A) (s : world W TParameters) :
  reported (snd (m s)) = reported s -> ~ raises e m s.
Proof.
  unfold raises. intros Hsame Hmore. rewrite Hsame in Hmore.
  apply (f_equal length) in Hmore. rewrite length_app in Hmore.
  simpl in Hmore. lia.
Qed.

End RaisesNothing.

Section FreeCallableRaisesNothing.
Import FreeCallable.
Context {W TReturn TParameters : Type}.
Variable prog : program W TReturn TParameters.

Lemma free_operator_call_raises_nothing (w : function_wrapper)
    (params : TParameters) :
  raises_nothing (operator_call prog w params).
Proof. intros s. apply free_operator_call_reported. Qed.

End FreeCallableRaisesNothing.

Section MutableMethodRaisesNothing.
Import MutableMethod.
Context {W TReturn TParameters A : Type}.
Variable prog : program W TReturn TParameters.
Variable void_prog : program W unit TParameters.
Variable policy : error_policy.

Lemma method_call_if_raises_nothing (w : function_wrapper)
    (object : pointer) (params : TParameters) :
  raises_nothing (call_if prog policy w object params).
Proof.
  unfold call_if. destruct (is_valid w) eqn:Hvalid.
  - apply raises_nothing_bind.
    + intros s. now apply method_operator_call_bound_reported.
    + intros r. apply raises_nothing_ret.
  - apply raises_nothing_ret.
Qed.

Lemma method_call_if_void_raises_nothing (w : function_wrapper)
    (object : pointer) (params : TParameters) :
  raises_nothing (call_if_void void_prog policy w object params).
Proof.
  unfold call_if_void. destruct (is_valid w) eqn:Hvalid.
  - apply raises_nothing_bind.
    + intros s. now apply method_operator_call_bound_reported.
    + intros r. apply raises_nothing_ret.
  - apply raises_nothing_ret.
Qed.

Lemma method_call_or_raises_nothing (w : function_wrapper)
    (alternative : TParameters -> W -> TReturn * W)
    (object : pointer) (params : TParameters) :
  raises_nothing (call_or prog policy w alternative object params).
Proof.
  unfold call_or. destruct (is_valid w) eqn:Hvalid.
  - intros s. now apply method_operator_call_bound_reported.
  - apply raises_nothing_invoke.
Qed.

Lemma method_call_or_void_raises_nothing (w : function_wrapper)
    (alternative : TParameters -> W -> A * W)
    (object : pointer) (params : TParameters) :
  raises_nothing (call_or_void void_prog policy w alternative object params).
Proof.
  unfold call_or_void. destruct (is_valid w) eqn:Hvalid.
  - apply raises_nothing_bind.
    + intros s. now apply method_operator_call_bound_reported.
    + intros r. apply raises_nothing_ret.
  - apply raises_nothing_bind.
    + apply raises_nothing_invoke.
    + intros r. apply raises_nothing_ret.
Qed.

End MutableMethodRaisesNothing.

Section ConstMethodRaisesNothing.
Import ConstMethod.
Context {W TReturn TParameters A : Type}.
Variable prog : program W TReturn TParameters.
Variable void_prog : program W unit TParameters.
Variable policy : error_policy.

Lemma const_method_call_if_raises_nothing (w : function_wrapper)
    (object : pointer) (params : TParameters) :
  raises_nothing (call_if prog policy w object params).
Proof.
  unfold call_if. destruct (is_valid w) eqn:Hvalid.
  - apply raises_nothing_bind.
    + intros s. now apply const_method_operator_call_bound_reported.
    + intros r. apply raises_nothing_ret.
  - apply raises_nothing_ret.
Qed.

Lemma const_method_call_if_void_raises_nothing (w : function_wrapper)
    (object : pointer) (params : TParameters) :
  raises_nothing (call_if_void void_prog policy w object params).
Proof.
  unfold call_if_void. destruct (is_valid w) eqn:Hvalid.
  - apply raises_nothing_bind.
    + intros s. now apply const_method_operator_call_bound_reported.
    + intros r. apply raises_nothing_ret.
  - apply raises_nothing_ret.
Qed.

Lemma const_method_call_or_raises_nothing (w : function_wrapper)
    (alternative : TParameters -> W -> TReturn * W)
    (object : pointer) (params : TParameters) :
  raises_nothing (call_or prog policy w alternative object params).
Proof.
  unfold call_or. destruct (is_valid w) eqn:Hvalid.
  - intros s. now apply const_method_operator_call_bound_reported.
  - apply raises_nothing_invoke.
Qed.

Lemma const_method_call_or_void_raises_nothing (w : function_wrapper)
    (alternative : TParameters -> W -> A * W)
    (object : pointer) (params : TParameters) :
  raises_nothing (call_or_void void_prog policy w alternative object params).
Proof.
  unfold call_or_void. destruct (is_valid w) eqn:Hvalid.
  - apply raises_nothing_bind.
    + intros s. now apply const_method_operator_call_bound_reported.
    + intros r. apply raises_nothing_ret.
  - apply raises_nothing_bind.
    + apply raises_nothing_invoke.
    + intros r. apply raises_nothing_ret.
Qed.

End ConstMethodRaisesNothing.

Section UninitialisedInvocation.
Context {W TReturn TParameters A : Type}.
Variable method_prog : MutableMethod.program W TReturn TParameters.
Variable void_method_prog : MutableMethod.program W unit TParameters.
Variable const_prog : ConstMethod.program W TReturn TParameters.
Variable void_const_prog : ConstMethod.program W unit TParameters.
Variable free_prog : FreeCallable.program W TReturn TParameters.
Variable policy : error_policy.

Lemma method_operator_call_raises_iff (w : MutableMethod.function_wrapper)
    (object : pointer) (params : TParameters) (s : world W TParameters) :
  raises member_function_uninitialised
    (MutableMethod.operator_call method_prog policy w object params) s <->
  MutableMethod.is_valid w = false.
Proof.
  destruct (MutableMethod.is_valid w) eqn:Hvalid.
  - split; [|discriminate]. intros Hraises. exfalso.
    revert Hraises. apply not_raises_when_nothing_reported.
    now apply method_operator_call_bound_reported.
  - split; [reflexivity|]. intros _. unfold raises.
    now rewrite method_operator_call_unbound.
Qed.

Lemma const_method_operator_call_raises_iff
    (w : ConstMethod.function_wrapper)
    (object : pointer) (params : TParameters) (s : world W TParameters) :
  raises member_function_uninitialised
    (ConstMethod.operator_call const_prog policy w object params) s <->
  ConstMethod.is_valid w = false.
Proof.
  destruct (ConstMethod.is_valid w) eqn:Hvalid.
  - split; [|discriminate]. intros Hraises. exfalso.
    revert Hraises. apply not_raises_when_nothing_reported.
    now apply const_method_operator_call_bound_reported.
  - split; [reflexivity|]. intros _. unfold raises.
    now rewrite const_method_operator_call_unbound.
Qed.

(** C2. [operator()] of the mutable-method wrapper and of the const-method
    wrapper hands the uninitialised condition to the error facility exactly
    when the wrapper is unbound. When the wrapper is bound nothing is
    reported and the call is the member call [(object.*method)(params)].
    No other operation that runs code reports anything: [call_if] and
    [call_or] of the two method wrappers and [operator()] of the
    free-callable wrapper leave the list of reported conditions as it was.
    ([call_if] and [call_or] of the free-callable wrapper are ill-formed in
    the source: they cannot run, so they report nothing. The constructors,
    [is_valid], the conversion to bool, [==] and [!=] are pure functions of
    the wrapper: they have no access to the error facility.) *)
Theorem uninitialised_is_raised_only_by_unbound_method_calls
    (mw : MutableMethod.function_wrapper) (cw : ConstMethod.function_wrapper)
    (fw : FreeCallable.function_wrapper)
    (fallback : TParameters -> W -> TReturn * W)
    (void_fallback : TParameters -> W -> A * W)
    (object : pointer) (params : TParameters) (s : world W TParameters) :
  (raises member_function_uninitialised
     (MutableMethod.operator_call method_prog policy mw object params) s <->
   MutableMethod.is_valid mw = false) /\
  (MutableMethod.is_valid mw = true ->
   reported
     (snd (MutableMethod.operator_call method_prog policy mw object params s))
     = reported s /\
   MutableMethod.operator_call method_prog policy mw object params s =
     MutableMethod.call_member method_prog object
       (MutableMethod.method (MutableMethod.invocation mw)) params s) /\
  (raises member_function_uninitialised
     (ConstMethod.operator_call const_prog policy cw object params) s <->
   ConstMethod.is_valid cw = false) /\
  (ConstMethod.is_valid cw = true ->
   reported
     (snd (ConstMethod.operator_call const_prog policy cw object params s))
     = reported s /\
   ConstMethod.operator_call const_prog policy cw object params s =
     ConstMethod.call_member const_prog object
       (ConstMethod.const_method (ConstMethod.invocation cw)) params s) /\
  raises_nothing (MutableMethod.call_if method_prog policy mw object params) /\
  raises_nothing
    (MutableMethod.call_if_void void_method_prog policy mw object params) /\
  raises_nothing
    (MutableMethod.call_or method_prog policy mw fallback object params) /\
  raises_nothing
    (MutableMethod.call_or_void void_method_prog policy mw void_fallback
       object params) /\
  raises_nothing (ConstMethod.call_if const_prog policy cw object params) /\
  raises_nothing
    (ConstMethod.call_if_void void_const_prog policy cw object params) /\
  raises_nothing
    (ConstMethod.call_or const_prog policy cw fallback object params) /\
  raises_nothing
    (ConstMethod.call_or_void void_const_prog policy cw void_fallback
       object params) /\
  raises_nothing (FreeCallable.operator_call free_prog fw params).
Proof.
  split; [apply method_operator_call_raises_iff|].
  split.
  { intros Hvalid. split.
    - now apply method_operator_call_bound_reported.
    - now apply method_operator_call_bound. }
  split; [apply const_method_operator_call_raises_iff|].
  split.
  { intros Hvalid. split.
    - now apply const_method_operator_call_bound_reported.
    - now apply const_method_operator_call_bound. }
  split; [apply method_call_if_raises_nothing|].
  split; [apply method_call_if_void_raises_nothing|].
  split; [apply method_call_or_raises_nothing|].
  split; [apply method_call_or_void_raises_nothing|].
  split; [apply const_method_call_if_raises_nothing|].
  split; [apply const_method_call_if_void_raises_nothing|].
  split; [apply const_method_call_or_raises_nothing|].
  split; [apply const_method_call_or_void_raises_nothing|].
  apply free_operator_call_raises_nothing.
Qed.

End UninitialisedInvocation.

(** ** [call_if] *)

Section CallIf.
Context {W TReturn TParameters : Type}.
Variable method_prog : MutableMethod.program W TReturn TParameters.
Variable void_method_prog : MutableMethod.program W unit TParameters.
Variable const_prog : ConstMethod.program W TReturn TParameters.
Variable void_const_prog : ConstMethod.program W unit TParameters.
Variable policy : error_policy.

Lemma free_operator_call_runs_code {R : Type}
    (prog : FreeCallable.program W R TParameters)
    (w : FreeCallable.function_wrapper) (params : TParameters)
    (c : callee) (body : TParameters -> W -> R * W)
    (s : world W TParameters) :
  free_code prog w = Some (c, body) ->
  FreeCallable.operator_call prog w params s =
    (Normal (fst (body params (heap s))), after_body c params body s).
Proof.
  unfold free_code, free_target, FreeCallable.operator_call.
  destruct (FreeCallable.stub (FreeCallable.invocation w))
    as [[|TLambda|TLambda]|]; simpl; [| | |discriminate].
  - unfold FreeCallable.function_stub, FreeCallable.call_function.
    destruct (FreeCallable.function_body prog _) as [code|]; simpl;
      [|discriminate].
    intros [= <- <-]. apply invoke_spec.
  - unfold FreeCallable.lambda_stub, FreeCallable.call_functor.
    destruct (FreeCallable.functor_body prog _ _) as [code|]; simpl;
      [|discriminate].
    intros [= <- <-]. apply invoke_spec.
  - unfold FreeCallable.const_lambda_stub, FreeCallable.call_const_functor.
    destruct (FreeCallable.const_functor_body prog _ _) as [code|]; simpl;
      [|discriminate].
    intros [= <- <-]. apply invoke_spec.
Qed.

Lemma method_operator_call_runs_code {R : Type}
    (prog : MutableMethod.program W R TParameters)
    (w : MutableMethod.function_wrapper) (object : pointer)
    (params : TParameters) (c : callee) (body : TParameters -> W -> R * W)
    (s : world W TParameters) :
  method_code prog w object = Some (c, body) ->
  MutableMethod.operator_call prog policy w object params s =
    (Normal (fst (body params (heap s))), after_body c params body s).
Proof.
  unfold method_code, method_target.
  destruct (MutableMethod.stub (MutableMethod.invocation w))
    as [[]|] eqn:Hstub; [|discriminate].
  destruct (MutableMethod.method (MutableMethod.invocation w))
    as [m|] eqn:Hmethod; [|discriminate].
  intros [= <- <-].
  rewrite method_operator_call_bound
    by (now apply method_is_valid_bound).
  rewrite Hmethod. apply invoke_spec.
Qed.

Lemma const_method_operator_call_runs_code {R : Type}
    (prog : ConstMethod.program W R TParameters)
    (w : ConstMethod.function_wrapper) (object : pointer)
    (params : TParameters) (c : callee) (body : TParameters -> W -> R * W)
    (s : world W TParameters) :
  const_method_code prog w object = Some (c, body) ->
  ConstMethod.operator_call prog policy w object params s =
    (Normal (fst (body params (heap s))), after_body c params body s).
Proof.
  unfold const_method_code, const_method_target.
  destruct (ConstMethod.const_stub (ConstMethod.invocation w))
    as [[]|] eqn:Hstub; [|discriminate].
  destruct (ConstMethod.const_method (ConstMethod.invocation w))
    as [m|] eqn:Hmethod; [|discriminate].
  intros [= <- <-].
  rewrite const_method_operator_call_bound
    by (now apply const_method_is_valid_bound).
  rewrite Hmethod. apply invoke_spec.
Qed.

(** The shape shared by the [call_if] overloads: a guard, then the call,
    then the wrapping of its result. *)
Lemma guarded_call_intro {R B : Type} (valid : bool)
    (code : option (callee * (TParameters -> W -> R * W)))
    (params : TParameters) (call : M W TParameters R)
    (absent : B) (present : R -> B) :
  (forall c body s,
      code = Some (c, body) ->
      call s =
        (Normal (fst (body params (heap s))), after_body c params body s)) ->
  guarded_call valid code params call
    (if valid then bind call (fun r => ret (present r)) else ret absent)
    absent present.
Proof.
  intros Hcall s. destruct valid.
  - intros c body Hcode. specialize (Hcall c body s Hcode).
    split; [exact Hcall|].
    now rewrite (bind_normal _ _ _ _ _ Hcall).
  - reflexivity.
Qed.

(** X13. [call_if] of the mutable-method and of the const-method wrapper,
    for a void and for a non-void return type. Unbound: it returns [false]
    (void) or the empty optional (non-void) and the world is as before: no
    call, no effect. Bound to a member function: that member function is
    called exactly once on the receiver; a void [call_if] returns [true], a
    non-void one returns the optional that holds the value [operator()]
    returns. *)
Theorem method_call_if_calls_the_target_only_when_bound
    (mw : MutableMethod.function_wrapper)
    (cw : ConstMethod.function_wrapper)
    (object : pointer) (params : TParameters) :
  guarded_call (MutableMethod.is_valid mw)
    (method_code void_method_prog mw object) params
    (MutableMethod.operator_call void_method_prog policy mw object params)
    (MutableMethod.call_if_void void_method_prog policy mw object params)
    false (fun _ => true) /\
  guarded_call (MutableMethod.is_valid mw)
    (method_code method_prog mw object) params
    (MutableMethod.operator_call method_prog policy mw object params)
    (MutableMethod.call_if method_prog policy mw object params)
    None Some /\
  guarded_call (ConstMethod.is_valid cw)
    (const_method_code void_const_prog cw object) params
    (ConstMethod.operator_call void_const_prog policy cw object params)
    (ConstMethod.call_if_void void_const_prog policy cw object params)
    false (fun _ => true) /\
  guarded_call (ConstMethod.is_valid cw)
    (const_method_code const_prog cw object) params
    (ConstMethod.operator_call const_prog policy cw object params)
    (ConstMethod.call_if const_prog policy cw object params)
    None Some.
Proof.
  repeat split.
  - apply guarded_call_intro. intros c body s.
    apply method_operator_call_runs_code.
  - apply guarded_call_intro. intros c body s.
    apply method_operator_call_runs_code.
  - apply guarded_call_intro. intros c body s.
    apply const_method_operator_call_runs_code.
  - apply guarded_call_intro. intros c body s.
    apply const_method_operator_call_runs_code.
Qed.

End CallIf.

Lemma uninitialised_is_raised_only_by_unbound_method_calls_witness :
  MutableMethod.is_valid MutableMethod.default = false /\
  raises member_function_uninitialised
    (MutableMethod.operator_call Client.method_program raise_error
       MutableMethod.default Client.a_counter 4%Z) Client.initial /\
  ConstMethod.is_valid (ConstMethod.from_method (Some 0%N)) = true /\
  ConstMethod.operator_call Client.const_method_program raise_error
    (ConstMethod.from_method (Some 0%N)) Client.a_counter 4%Z Client.initial =
  ConstMethod.call_member Client.const_method_program Client.a_counter
    (Some 0%N) 4%Z Client.initial.
Proof.
  pose proof
    (uninitialised_is_raised_only_by_unbound_method_calls
       Client.method_program Client.void_method_program
       Client.const_method_program Client.void_const_method_program
       Client.free_program raise_error
       MutableMethod.default (ConstMethod.from_method (Some 0%N))
       FreeCallable.default Client.minus Client.bump
       Client.a_counter 4%Z Client.initial)
    as (Hraises & _ & _ & Hconst & _).
  split; [reflexivity|]. split; [apply Hraises; reflexivity|].
  split; [reflexivity|]. apply Hconst. reflexivity.
Defined.

Lemma method_call_if_calls_the_target_only_when_bound_witness :
  method_code Client.method_program
    (MutableMethod.from_method (Some 0%N)) Client.a_counter =
    Some (member_function 0%N Client.a_counter,
          Client.add Client.a_counter) /\
  MutableMethod.call_if Client.method_program halt
    (MutableMethod.from_method (Some 0%N)) Client.a_counter 4%Z
    Client.initial =
    (Normal (Some 11%Z),
     after_call (member_function 0%N Client.a_counter) 4%Z
       (Client.store Client.a_counter 11%Z (heap Client.initial))
       Client.initial) /\
  ConstMethod.call_if Client.const_method_program halt
    ConstMethod.default Client.a_counter 4%Z Client.initial =
    (Normal None, Client.initial) /\
  MutableMethod.call_if_void Client.void_method_program halt
    MutableMethod.default Client.a_counter 4%Z Client.initial =
    (Normal false, Client.initial).
Proof.
  pose proof
    (method_call_if_calls_the_target_only_when_bound
       Client.method_program Client.void_method_program
       Client.const_method_program Client.void_const_method_program halt
       (MutableMethod.from_method (Some 0%N)) ConstMethod.default
       Client.a_counter 4%Z)
    as (_ & Hbound & _ & Hconst).
  pose proof
    (method_call_if_calls_the_target_only_when_bound
       Client.method_program Client.void_method_program
       Client.const_method_program Client.void_const_method_program halt
       MutableMethod.default ConstMethod.default Client.a_counter 4%Z)
    as (Hvoid & _).
  split; [reflexivity|]. split.
  - exact (proj2 (Hbound Client.initial
                    (member_function 0%N Client.a_counter)
                    (Client.add Client.a_counter) eq_refl)).
  - split; [exact (Hconst Client.initial) | exact (Hvoid Client.initial)].
Defined.

(** ** [call_or] of the method wrappers *)

Section MethodCallOr.
Context {W TReturn TParameters A : Type}.
Variable method_prog : MutableMethod.program W TReturn TParameters.
Variable void_method_prog : MutableMethod.program W unit TParameters.
Variable const_prog : ConstMethod.program W TReturn TParameters.
Variable void_const_prog : ConstMethod.program W unit TParameters.
Variable policy : error_policy.

Lemma invoke_then_drop (c : callee) (params : TParameters)
    (body : TParameters -> W -> A * W) (s : world W TParameters) :
  bind (invoke c params body) (fun _ => ret tt) s =
    (Normal tt, after_body c params body s).
Proof. unfold bind. now rewrite invoke_spec. Qed.

(** C7. [call_or] of the mutable-method and of the const-method wrapper.
    Unbound: the alternative is called, as a callable, with [params] (the
    receiver is not passed to it); a non-void [call_or] returns what the
    alternative returns. Bound: the call is the member call on the receiver,
    in which the alternative does not occur. *)
Theorem method_call_or_calls_the_alternative_when_unbound
    (mw : MutableMethod.function_wrapper) (cw : ConstMethod.function_wrapper)
    (fallback : TParameters -> W -> TReturn * W)
    (void_fallback : TParameters -> W -> A * W)
    (object : pointer) (params : TParameters) (s : world W TParameters) :
  (MutableMethod.is_valid mw = false ->
   MutableMethod.call_or method_prog policy mw fallback object params s =
     (Normal (fst (fallback params (heap s))),
      after_body fallback_callable params fallback s) /\
   MutableMethod.call_or_void void_method_prog policy mw void_fallback
     object params s =
     (Normal tt, after_body fallback_callable params void_fallback s)) /\
  (MutableMethod.is_valid mw = true ->
   MutableMethod.call_or method_prog policy mw fallback object params s =
     MutableMethod.call_member method_prog object
       (MutableMethod.method (MutableMethod.invocation mw)) params s /\
   MutableMethod.call_or_void void_method_prog policy mw void_fallback
     object params s =
     bind (MutableMethod.call_member void_method_prog object
             (MutableMethod.method (MutableMethod.invocation mw)) params)
       (fun _ => ret tt) s) /\
  (ConstMethod.is_valid cw = false ->
   ConstMethod.call_or const_prog policy cw fallback object params s =
     (Normal (fst (fallback params (heap s))),
      after_body fallback_callable params fallback s) /\
   ConstMethod.call_or_void void_const_prog policy cw void_fallback
     object params s =
     (Normal tt, after_body fallback_callable params void_fallback s)) /\
  (ConstMethod.is_valid cw = true ->
   ConstMethod.call_or const_prog policy cw fallback object params s =
     ConstMethod.call_member const_prog object
       (ConstMethod.const_method (ConstMethod.invocation cw)) params s /\
   ConstMethod.call_or_void void_const_prog policy cw void_fallback
     object params s =
     bind (ConstMethod.call_member void_const_prog object
             (ConstMethod.const_method (ConstMethod.invocation cw)) params)
       (fun _ => ret tt) s).
Proof.
  split; [|split; [|split]]; intros Hvalid.
  - unfold MutableMethod.call_or, MutableMethod.call_or_void.
    rewrite Hvalid. split; [apply invoke_spec | apply invoke_then_drop].
  - unfold MutableMethod.call_or, MutableMethod.call_or_void.
    rewrite Hvalid. split.
    + now apply method_operator_call_bound.
    + unfold bind.
      now rewrite method_operator_call_bound by exact Hvalid.
  - unfold ConstMethod.call_or, ConstMethod.call_or_void.
    rewrite Hvalid. split; [apply invoke_spec | apply invoke_then_drop].
  - unfold ConstMethod.call_or, ConstMethod.call_or_void.
    rewrite Hvalid. split.
    + now apply const_method_operator_call_bound.
    + unfold bind.
      now rewrite const_method_operator_call_bound by exact Hvalid.
Qed.

End MethodCallOr.

Lemma method_call_or_calls_the_alternative_when_unbound_witness :
  MutableMethod.is_valid MutableMethod.default = false /\
  MutableMethod.call_or Client.method_program raise_error
    MutableMethod.default Client.minus Client.a_counter 4%Z Client.initial =
    (Normal (-4)%Z,
     after_call fallback_callable 4%Z (heap Client.initial) Client.initial) /\
  ConstMethod.is_valid (ConstMethod.from_method (Some 0%N)) = true /\
  ConstMethod.call_or Client.const_method_program raise_error
    (ConstMethod.from_method (Some 0%N)) Client.minus Client.a_counter 4%Z
    Client.initial =
    ConstMethod.call_member Client.const_method_program Client.a_counter
      (Some 0%N) 4%Z Client.initial.
Proof.
  pose proof
    (method_call_or_calls_the_alternative_when_unbound
       Client.method_program Client.void_method_program
       Client.const_method_program Client.void_const_method_program
       raise_error MutableMethod.default
       (ConstMethod.from_method (Some 0%N)) Client.minus Client.bump
       Client.a_counter 4%Z Client.initial)
    as (Hunbound & _ & _ & Hbound).
  split; [reflexivity|]. split; [exact (proj1 (Hunbound eq_refl))|].
  split; [reflexivity|]. exact (proj1 (Hbound eq_refl)).
Defined.

(** ** Validity and rebinding *)

Lemma const_member_calls_keep_this {wrapper : Type}
    (assign : wrapper -> wrapper -> wrapper)
    (ops : list (member_call wrapper)) (this : wrapper) :
  forallb (fun op => negb (is_rebinding op)) ops = true ->
  fold_left (this_after assign) ops this = this.
Proof.
  revert this. induction ops as [|op ops IH]; intros this Hconst.
  - reflexivity.
  - simpl in Hconst. apply andb_prop in Hconst as [Hop Hops].
    destruct op as [|other]; [|discriminate].
    simpl. now apply IH.
Qed.

Lemma free_assign_is_other (this other : FreeCallable.function_wrapper) :
  FreeCallable.operator_assign this other = other.
Proof. now destruct other as [[alternate stub]]. Qed.

Lemma method_assign_is_other (this other : MutableMethod.function_wrapper) :
  MutableMethod.operator_assign this other = other.
Proof. now destruct other as [[method stub]]. Qed.

Lemma const_method_assign_is_other
    (this other : ConstMethod.function_wrapper) :
  ConstMethod.operator_assign this other = other.
Proof. now destruct other as [[const_method const_stub]]. Qed.

(** C8. For each of the three wrappers, [is_valid] and the conversion to
    bool are true exactly when the stub is not null. A default-constructed
    wrapper is not valid. A wrapper constructed from a function pointer,
    from a reference or const reference to a functor, or from a pointer to
    member function is valid. Validity is a function of the wrapper alone:
    after any sequence of const member function calls the wrapper, and so
    its validity, is what it was; an assignment gives it the validity of the
    wrapper assigned. *)
Theorem is_valid_exactly_when_bound
    (fw fother : FreeCallable.function_wrapper)
    (mw mother : MutableMethod.function_wrapper)
    (cw cother : ConstMethod.function_wrapper)
    (f : FreeCallable.function_type) (TLambda : class_id) (p : pointer)
    (m : MutableMethod.method_type) (cm : ConstMethod.const_method_type)
    (fops : list (member_call FreeCallable.function_wrapper))
    (mops : list (member_call MutableMethod.function_wrapper))
    (cops : list (member_call ConstMethod.function_wrapper)) :
  (FreeCallable.is_valid fw = true <->
     FreeCallable.stub (FreeCallable.invocation fw) <> None) /\
  (MutableMethod.is_valid mw = true <->
     MutableMethod.stub (MutableMethod.invocation mw) <> None) /\
  (ConstMethod.is_valid cw = true <->
     ConstMethod.const_stub (ConstMethod.invocation cw) <> None) /\
  FreeCallable.operator_bool fw = FreeCallable.is_valid fw /\
  MutableMethod.operator_bool mw = MutableMethod.is_valid mw /\
  ConstMethod.operator_bool cw = ConstMethod.is_valid cw /\
  FreeCallable.is_valid FreeCallable.default = false /\
  MutableMethod.is_valid MutableMethod.default = false /\
  ConstMethod.is_valid ConstMethod.default = false /\
  FreeCallable.is_valid (FreeCallable.from_function f) = true /\
  FreeCallable.is_valid (FreeCallable.from_lambda TLambda p) = true /\
  FreeCallable.is_valid (FreeCallable.from_const_lambda TLambda p) = true /\
  MutableMethod.is_valid (MutableMethod.from_method m) = true /\
  ConstMethod.is_valid (ConstMethod.from_method cm) = true /\
  (forallb (fun op => negb (is_rebinding op)) fops = true ->
   FreeCallable.is_valid
     (fold_left (this_after FreeCallable.operator_assign) fops fw) =
   FreeCallable.is_valid fw) /\
  (forallb (fun op => negb (is_rebinding op)) mops = true ->
   MutableMethod.is_valid
     (fold_left (this_after MutableMethod.operator_assign) mops mw) =
   MutableMethod.is_valid mw) /\
  (forallb (fun op => negb (is_rebinding op)) cops = true ->
   ConstMethod.is_valid
     (fold_left (this_after ConstMethod.operator_assign) cops cw) =
   ConstMethod.is_valid cw) /\
  FreeCallable.is_valid (FreeCallable.operator_assign fw fother) =
    FreeCallable.is_valid fother /\
  MutableMethod.is_valid (MutableMethod.operator_assign mw mother) =
    MutableMethod.is_valid mother /\
  ConstMethod.is_valid (ConstMethod.operator_assign cw cother) =
    ConstMethod.is_valid cother.
Proof.
  split.
  { rewrite free_is_valid_bound.
    destruct (FreeCallable.stub (FreeCallable.invocation fw)) as [a|].
    - split; [discriminate | eauto].
    - split; [intros [a Ha]; discriminate | congruence]. }
  split.
  { rewrite method_is_valid_bound.
    destruct (MutableMethod.stub (MutableMethod.invocation mw)) as [[]|].
    - split; [discriminate | reflexivity].
    - split; [discriminate | congruence]. }
  split.
  { rewrite const_method_is_valid_bound.
    destruct (ConstMethod.const_stub (ConstMethod.invocation cw)) as [[]|].
    - split; [discriminate | reflexivity].
    - split; [discriminate | congruence]. }
  do 11 (split; [reflexivity|]).
  split.
  { intros Hconst. now rewrite const_member_calls_keep_this. }
  split.
  { intros Hconst. now rewrite const_member_calls_keep_this. }
  split.
  { intros Hconst. now rewrite const_member_calls_keep_this. }
  rewrite free_assign_is_other, method_assign_is_other,
    const_method_assign_is_other.
  repeat split.
Qed.

Lemma is_valid_exactly_when_bound_witness :
  FreeCallable.is_valid
    (fold_left (this_after FreeCallable.operator_assign)
       [const_member_call; const_member_call]
       (FreeCallable.from_function Client.square_address)) = true /\
  MutableMethod.is_valid
    (fold_left (this_after MutableMethod.operator_assign)
       [const_member_call] (MutableMethod.from_method (Some 0%N))) = true.
Proof.
  pose proof
    (is_valid_exactly_when_bound
       (FreeCallable.from_function Client.square_address)
       FreeCallable.default
       (MutableMethod.from_method (Some 0%N)) MutableMethod.default
       ConstMethod.default ConstMethod.default
       Client.square_address Client.accumulator Client.first_accumulator
       (Some 0%N) (Some 0%N)
       [const_member_call; const_member_call] [const_member_call] [])
    as (_ & _ & _ & _ & _ & _ & _ & _ & _ & _ & _ & _ & _ & _ &
        Hfree & Hmethod & _).
  split.
  - rewrite (Hfree eq_refl). reflexivity.
  - rewrite (Hmethod eq_refl). reflexivity.
Defined.

Section Rebinding.
Context {W TReturn TParameters : Type}.
Variable free_prog : FreeCallable.program W TReturn TParameters.
Variable method_prog : MutableMethod.program W TReturn TParameters.
Variable const_prog : ConstMethod.program W TReturn TParameters.
Variable policy : error_policy.

(** C9. Assigning a wrapper replaces the whole invocation record: the
    assigned-to wrapper is the wrapper assigned, whatever it was bound to
    before. So its equality with any other wrapper, on either side, its
    validity and its calls are those of the new binding. This holds for the
    three wrappers; a copy-constructed wrapper is likewise its source. *)
Theorem rebinding_leaves_no_trace_of_the_old_binding
    (fold fnew fx : FreeCallable.function_wrapper)
    (mold mnew mx : MutableMethod.function_wrapper)
    (cold cnew cx : ConstMethod.function_wrapper)
    (object : pointer) (params : TParameters) :
  FreeCallable.operator_assign fold fnew = fnew /\
  FreeCallable.copy fnew = fnew /\
  FreeCallable.operator_eq (FreeCallable.operator_assign fold fnew) fx =
    FreeCallable.operator_eq fnew fx /\
  FreeCallable.operator_eq fx (FreeCallable.operator_assign fold fnew) =
    FreeCallable.operator_eq fx fnew /\
  FreeCallable.operator_call free_prog
    (FreeCallable.operator_assign fold fnew) params =
    FreeCallable.operator_call free_prog fnew params /\
  MutableMethod.operator_assign mold mnew = mnew /\
  MutableMethod.copy mnew = mnew /\
  MutableMethod.operator_eq (MutableMethod.operator_assign mold mnew) mx =
    MutableMethod.operator_eq mnew mx /\
  MutableMethod.operator_eq mx (MutableMethod.operator_assign mold mnew) =
    MutableMethod.operator_eq mx mnew /\
  MutableMethod.operator_call method_prog policy
    (MutableMethod.operator_assign mold mnew) object params =
    MutableMethod.operator_call method_prog policy mnew object params /\
  ConstMethod.operator_assign cold cnew = cnew /\
  ConstMethod.copy cnew = cnew /\
  ConstMethod.operator_eq (ConstMethod.operator_assign cold cnew) cx =
    ConstMethod.operator_eq cnew cx /\
  ConstMethod.operator_eq cx (ConstMethod.operator_assign cold cnew) =
    ConstMethod.operator_eq cx cnew /\
  ConstMethod.operator_call const_prog policy
    (ConstMethod.operator_assign cold cnew) object params =
    ConstMethod.operator_call const_prog policy cnew object params.
Proof.
  rewrite free_assign_is_other, method_assign_is_other,
    const_method_assign_is_other.
  destruct fnew as [fi], mnew as [mi], cnew as [ci].
  repeat split.
Qed.

End Rebinding.

(** ** The scenarios of the spec, run on the client program *)

Example square_through_wrapper :
  fst (FreeCallable.operator_call Client.free_program
         (FreeCallable.from_function Client.square_address) 4%Z
         Client.initial) = Normal 16%Z.
Proof. reflexivity. Qed.

Example square_is_not_default :
  FreeCallable.operator_eq
    (FreeCallable.from_function Client.square_address)
    FreeCallable.default = false.
Proof. reflexivity. Qed.

Example accumulator_state_is_shared :
  let w := FreeCallable.from_lambda Client.accumulator
             Client.first_accumulator in
  let s1 := snd (FreeCallable.operator_call Client.free_program w 4%Z
                   Client.initial) in
  fst (FreeCallable.operator_call Client.free_program
         (FreeCallable.copy w) 1%Z s1) = Normal 12%Z /\
  heap s1 Client.first_accumulator = 11%Z /\
  heap s1 Client.second_accumulator = 7%Z.
Proof. repeat split. Qed.

Example unbound_method_call_under_each_policy :
  fst (MutableMethod.operator_call Client.method_program log_and_continue
         MutableMethod.default Client.a_counter 4%Z Client.initial) =
    Undefined null_stub_dereference /\
  fst (MutableMethod.operator_call Client.method_program raise_error
         MutableMethod.default Client.a_counter 4%Z Client.initial) =
    Thrown member_function_uninitialised /\
  fst (MutableMethod.operator_call Client.method_program halt
         MutableMethod.default Client.a_counter 4%Z Client.initial) =
    Halted /\
  reported
    (snd (MutableMethod.operator_call Client.method_program halt
            MutableMethod.default Client.a_counter 4%Z Client.initial)) =
    [member_function_uninitialised].
Proof. repeat split. Qed.

Example bound_method_call :
  let w := MutableMethod.from_method (Some 0%N) in
  let r := MutableMethod.operator_call Client.method_program raise_error w
             Client.a_counter 4%Z Client.initial in
  fst r = Normal 11%Z /\
  heap (snd r) Client.a_counter = 11%Z /\
  calls (snd r) = [Call (member_function 0%N Client.a_counter) 4%Z] /\
  reported (snd r) = [].
Proof. repeat split. Qed.

(** * Further properties *)

(** ** Calls through functor and member-function wrappers *)

Section DirectCalls.
Context {W TReturn TParameters : Type}.
Variable free_prog : FreeCallable.program W TReturn TParameters.
Variable method_prog : MutableMethod.program W TReturn TParameters.
Variable const_prog : ConstMethod.program W TReturn TParameters.
Variable policy : error_policy.

(** X1. A wrapper made from a reference to a functor calls that functor's
    call operator on the object itself: the result and the heap afterwards
    are those of the direct call [instance(params)], with one call recorded.
    A wrapper made from a const reference calls the const call operator in
    the same way. Each half needs only its own call operator. *)
Theorem functor_wrapper_calls_the_functor_in_place
    (TLambda : class_id) (instance_ : pointer)
    (params : TParameters) (s : world W TParameters) :
  (forall body : TParameters -> W -> TReturn * W,
     FreeCallable.functor_body free_prog TLambda instance_ = Some body ->
     FreeCallable.operator_call free_prog
       (FreeCallable.from_lambda TLambda instance_) params s =
       (Normal (fst (body params (heap s))),
        after_body (functor_object TLambda instance_) params body s)) /\
  FreeCallable.operator_call free_prog
    (FreeCallable.from_lambda TLambda instance_) params s =
    FreeCallable.call_functor free_prog TLambda instance_ params s /\
  (forall const_body : TParameters -> W -> TReturn * W,
     FreeCallable.const_functor_body free_prog TLambda instance_ =
       Some const_body ->
     FreeCallable.operator_call free_prog
       (FreeCallable.from_const_lambda TLambda instance_) params s =
       (Normal (fst (const_body params (heap s))),
        after_body (const_functor_object TLambda instance_) params
          const_body s)) /\
  FreeCallable.operator_call free_prog
    (FreeCallable.from_const_lambda TLambda instance_) params s =
    FreeCallable.call_const_functor free_prog TLambda instance_ params s.
Proof.
  split; [|split; [reflexivity|split; [|reflexivity]]].
  - intros body Hbody. apply free_operator_call_runs_code.
    unfold free_code, free_target; simpl.
    unfold FreeCallable.object; simpl. now rewrite Hbody.
  - intros const_body Hconst. apply free_operator_call_runs_code.
    unfold free_code, free_target; simpl.
    unfold FreeCallable.object; simpl. now rewrite Hconst.
Qed.

(** X2. A wrapper made from a pointer to member function calls that member
    function on the receiver given at the call: the result and the heap are
    those of the direct member call, one call is recorded, nothing is
    reported, and the error policy plays no part. The same holds for the
    wrapper of a const member function. *)
Theorem method_wrapper_calls_the_member_on_the_receiver
    (m : method_id) (object : pointer) (params : TParameters)
    (s : world W TParameters) :
  MutableMethod.operator_call method_prog policy
    (MutableMethod.from_method (Some m)) object params s =
    (Normal
       (fst (MutableMethod.method_body method_prog m object params (heap s))),
     after_body (member_function m object) params
       (MutableMethod.method_body method_prog m object) s) /\
  ConstMethod.operator_call const_prog policy
    (ConstMethod.from_method (Some m)) object params s =
    (Normal
       (fst (ConstMethod.const_method_body const_prog m object params
               (heap s))),
     after_body (const_member_function m object) params
       (ConstMethod.const_method_body const_prog m object) s).
Proof.
  split.
  - now apply method_operator_call_runs_code.
  - now apply const_method_operator_call_runs_code.
Qed.

(** X3. [operator()] on an unbound method wrapper enters no user code: the
    heap and the list of calls are as before and exactly one condition, the
    uninitialised one, is reported. The call never returns normally: it
    throws, halts, or, when the policy logs and continues, goes on to
    dereference the null stub. *)
Theorem unbound_method_call_only_reports
    (mw : MutableMethod.function_wrapper) (cw : ConstMethod.function_wrapper)
    (object : pointer) (params : TParameters) (s : world W TParameters) :
  MutableMethod.is_valid mw = false ->
  ConstMethod.is_valid cw = false ->
  let after_report :=
    {| heap := heap s; calls := calls s;
       reported := reported s ++ [member_function_uninitialised] |} in
  let outcome_of_policy : outcome TReturn :=
    match policy with
    | log_and_continue => Undefined null_stub_dereference
    | raise_error => Thrown member_function_uninitialised
    | halt => Halted
    end in
  MutableMethod.operator_call method_prog policy mw object params s =
    (outcome_of_policy, after_report) /\
  ConstMethod.operator_call const_prog policy cw object params s =
    (outcome_of_policy, after_report) /\
  (forall r : TReturn, outcome_of_policy <> Normal r).
Proof.
  intros Hmw Hcw after_report outcome_of_policy.
  split; [|split].
  - now rewrite method_operator_call_unbound.
  - now rewrite const_method_operator_call_unbound.
  - intros r. unfold outcome_of_policy. now destruct policy.
Qed.

End DirectCalls.

Lemma functor_wrapper_calls_the_functor_in_place_witness :
  FreeCallable.functor_body Client.free_program Client.accumulator
    Client.first_accumulator =
    Some (Client.accumulate Client.first_accumulator) /\
  FreeCallable.operator_call Client.free_program
    (FreeCallable.from_lambda Client.accumulator Client.first_accumulator)
    4%Z Client.initial =
    (Normal 11%Z,
     after_call
       (functor_object Client.accumulator Client.first_accumulator) 4%Z
       (Client.store Client.first_accumulator 11%Z (heap Client.initial))
       Client.initial).
Proof.
  split; [reflexivity|].
  exact (proj1 (functor_wrapper_calls_the_functor_in_place
                  Client.free_program Client.accumulator
                  Client.first_accumulator 4%Z Client.initial)
           (Client.accumulate Client.first_accumulator) eq_refl).
Defined.

Lemma unbound_method_call_only_reports_witness :
  MutableMethod.is_valid MutableMethod.default = false /\
  ConstMethod.is_valid ConstMethod.default = false /\
  MutableMethod.operator_call Client.method_program halt
    MutableMethod.default Client.a_counter 4%Z Client.initial =
    (Halted,
     {| heap := heap Client.initial; calls := [];
        reported := [member_function_uninitialised] |}).
Proof.
  split; [reflexivity|]. split; [reflexivity|].
  exact (proj1 (unbound_method_call_only_reports
                  Client.method_program Client.const_method_program halt
                  MutableMethod.default ConstMethod.default
                  Client.a_counter 4%Z Client.initial eq_refl eq_refl)).
Defined.

(** ** Equality as a relation *)

Section FreeCallableEqualityRelation.
Import FreeCallable.

Lemma free_eq_unbound_or_identical (w1 w2 : function_wrapper) :
  operator_eq w1 w2 = true <->
  (is_valid w1 = false /\ is_valid w2 = false) \/ w1 = w2.
Proof.
  destruct w1 as [[[c1] s1]], w2 as [[[c2] s2]].
  unfold operator_eq. rewrite free_invocation_eq_iff.
  unfold is_valid, func, object; simpl. split.
  - intros [Hstub Hpayload]. subst s2.
    destruct s1 as [a|]; simpl.
    + right. destruct Hpayload as [Hnull|[[_ Hcell]|Hcell]];
        [discriminate | now subst | now subst].
    + left. split; reflexivity.
  - intros [[Hv1 Hv2]|Hsame].
    + destruct s1 as [a1|]; [discriminate|].
      destruct s2 as [a2|]; [discriminate|].
      split; [reflexivity | left; reflexivity].
    + injection Hsame as -> ->. split; [reflexivity | right; right; reflexivity].
Qed.

(** X4. Two free-callable wrappers compare equal exactly when both are
    unbound or both hold the same stub and the same stored address. So
    comparing a wrapper with a default-constructed one tests that it is
    unbound, and a bound wrapper never equals an unbound one. *)
Theorem free_wrappers_equal_when_both_unbound_or_identical
    (w1 w2 : function_wrapper) :
  (operator_eq w1 w2 = true <->
   (is_valid w1 = false /\ is_valid w2 = false) \/ w1 = w2) /\
  operator_eq w1 default = negb (is_valid w1) /\
  operator_eq default w1 = negb (is_valid w1) /\
  (is_valid w1 = true -> is_valid w2 = false -> operator_eq w1 w2 = false).
Proof.
  split; [apply free_eq_unbound_or_identical|].
  assert (Hdefault : forall w,
             operator_eq w default = negb (is_valid w) /\
             operator_eq default w = negb (is_valid w)).
  { intros [[[c] [a|]]]; split; reflexivity. }
  split; [apply Hdefault|]. split; [apply Hdefault|].
  intros Hv1 Hv2. apply Bool.not_true_is_false.
  rewrite free_eq_unbound_or_identical.
  intros [[Hu _]|Hsame]; [congruence | subst; congruence].
Qed.

(** X5. Equality of free-callable wrappers is an equivalence relation:
    reflexive, symmetric and transitive. [!=] is its negation. *)
Theorem free_wrapper_equality_is_an_equivalence (w1 w2 w3 : function_wrapper) :
  operator_eq w1 w1 = true /\
  operator_eq w1 w2 = operator_eq w2 w1 /\
  (operator_eq w1 w2 = true -> operator_eq w2 w3 = true ->
   operator_eq w1 w3 = true) /\
  (operator_ne w1 w2 = true <-> operator_eq w1 w2 = false).
Proof.
  split; [|split; [|split]].
  - apply free_eq_unbound_or_identical. now right.
  - apply Bool.eq_true_iff_eq.
    rewrite !free_eq_unbound_or_identical. intuition congruence.
  - rewrite !free_eq_unbound_or_identical.
    intros [[H1 H2]|H12] [[H2' H3]|H23]; subst; auto.
  - unfold operator_ne, invocation_ne.
    change (invocation_eq (invocation w1) (invocation w2))
      with (operator_eq w1 w2).
    now destruct (operator_eq w1 w2).
Qed.

End FreeCallableEqualityRelation.

Section EqualWrappersBehaveAlike.
Import FreeCallable.
Context {W TReturn TParameters : Type}.
Variable prog : program W TReturn TParameters.

(** X6. Free-callable wrappers that compare equal are interchangeable:
    they have the same validity and the same conversion to bool, and
    [operator()] does the same on the same arguments in the same world. *)
Theorem equal_free_wrappers_are_interchangeable
    (w1 w2 : function_wrapper)
    (params : TParameters) (s : world W TParameters) :
  operator_eq w1 w2 = true ->
  is_valid w1 = is_valid w2 /\
  operator_bool w1 = operator_bool w2 /\
  operator_call prog w1 params s = operator_call prog w2 params s.
Proof.
  intros Heq. apply free_eq_unbound_or_identical in Heq
    as [[Hv1 Hv2]|Hsame].
  - unfold operator_bool. rewrite Hv1, Hv2.
    apply free_is_valid_unbound in Hv1, Hv2.
    rewrite !free_operator_call_unbound by assumption.
    repeat split.
  - subst w2. repeat split.
Qed.

End EqualWrappersBehaveAlike.

Lemma free_wrappers_equal_when_both_unbound_or_identical_witness :
  FreeCallable.is_valid (FreeCallable.from_function Client.square_address) =
    true /\
  FreeCallable.is_valid FreeCallable.default = false /\
  FreeCallable.operator_eq
    (FreeCallable.from_function Client.square_address)
    FreeCallable.default = false.
Proof.
  split; [reflexivity|]. split; [reflexivity|].
  apply (free_wrappers_equal_when_both_unbound_or_identical
           (FreeCallable.from_function Client.square_address)
           FreeCallable.default); reflexivity.
Defined.

Lemma free_wrapper_equality_is_an_equivalence_witness :
  FreeCallable.operator_eq
    (FreeCallable.from_lambda Client.accumulator Client.first_accumulator)
    (FreeCallable.copy
       (FreeCallable.from_lambda Client.accumulator
          Client.first_accumulator)) = true /\
  FreeCallable.operator_eq
    (FreeCallable.from_lambda Client.accumulator Client.first_accumulator)
    (FreeCallable.operator_assign FreeCallable.default
       (FreeCallable.from_lambda Client.accumulator
          Client.first_accumulator)) = true.
Proof.
  split; [reflexivity|].
  apply (free_wrapper_equality_is_an_equivalence
           (FreeCallable.from_lambda Client.accumulator
              Client.first_accumulator)
           (FreeCallable.copy
              (FreeCallable.from_lambda Client.accumulator
                 Client.first_accumulator))
           (FreeCallable.operator_assign FreeCallable.default
              (FreeCallable.from_lambda Client.accumulator
                 Client.first_accumulator))); reflexivity.
Defined.

Lemma equal_free_wrappers_are_interchangeable_witness :
  FreeCallable.operator_eq
    (FreeCallable.from_function Client.square_address)
    (FreeCallable.copy (FreeCallable.from_function Client.square_address)) =
    true /\
  FreeCallable.operator_call Client.free_program
    (FreeCallable.from_function Client.square_address) 4%Z Client.initial =
  FreeCallable.operator_call Client.free_program
    (FreeCallable.copy (FreeCallable.from_function Client.square_address))
    4%Z Client.initial.
Proof.
  split; [reflexivity|].
  apply (equal_free_wrappers_are_interchangeable
           Client.free_program
           (FreeCallable.from_function Client.square_address)
           (FreeCallable.copy
              (FreeCallable.from_function Client.square_address))
           4%Z Client.initial).
  reflexivity.
Defined.

Section MethodEquality.

Lemma method_eq_identical (w1 w2 : MutableMethod.function_wrapper) :
  MutableMethod.operator_eq w1 w2 = true <-> w1 = w2.
Proof.
  destruct w1 as [[m1 s1]], w2 as [[m2 s2]].
  unfold MutableMethod.operator_eq, MutableMethod.invocation_eq; simpl.
  rewrite Bool.andb_true_iff, !bool_decide_eq_true.
  split; [intros [-> ->]; reflexivity | intros [= -> ->]; split; reflexivity].
Qed.

Lemma const_method_eq_identical (w1 w2 : ConstMethod.function_wrapper) :
  ConstMethod.operator_eq w1 w2 = true <-> w1 = w2.
Proof.
  destruct w1 as [[m1 s1]], w2 as [[m2 s2]].
  unfold ConstMethod.operator_eq, ConstMethod.invocation_eq; simpl.
  rewrite Bool.andb_true_iff, !bool_decide_eq_true.
  split; [intros [-> ->]; reflexivity | intros [= -> ->]; split; reflexivity].
Qed.

(** X7. Two method wrappers, mutable or const, compare equal exactly when
    they hold the same pointer to member and the same stub; the receiver is
    no part of it. So wrappers of one member function are equal, wrappers
    of two are not, and a wrapper constructed from a null pointer to member
    is bound and differs from a default-constructed one. [!=] is the
    negation. *)
Theorem method_wrappers_equal_when_identical
    (mw1 mw2 : MutableMethod.function_wrapper)
    (cw1 cw2 : ConstMethod.function_wrapper)
    (m1 m2 : option method_id) :
  (MutableMethod.operator_eq mw1 mw2 = true <-> mw1 = mw2) /\
  MutableMethod.operator_ne mw1 mw2 = negb (MutableMethod.operator_eq mw1 mw2) /\
  MutableMethod.operator_eq (MutableMethod.from_method m1)
    (MutableMethod.from_method m2) = bool_decide (m1 = m2) /\
  MutableMethod.operator_eq (MutableMethod.from_method m1)
    MutableMethod.default = false /\
  (ConstMethod.operator_eq cw1 cw2 = true <-> cw1 = cw2) /\
  ConstMethod.operator_ne cw1 cw2 = negb (ConstMethod.operator_eq cw1 cw2) /\
  ConstMethod.operator_eq (ConstMethod.from_method m1)
    (ConstMethod.from_method m2) = bool_decide (m1 = m2) /\
  ConstMethod.operator_eq (ConstMethod.from_method m1)
    ConstMethod.default = false.
Proof.
  split; [apply method_eq_identical|]. split; [reflexivity|].
  split.
  { apply Bool.eq_true_iff_eq.
    rewrite method_eq_identical, bool_decide_eq_true.
    unfold MutableMethod.from_method, MutableMethod.invocation_of_method.
    split; [intros [= ->]; reflexivity | intros ->; reflexivity]. }
  split.
  { apply Bool.not_true_is_false. rewrite method_eq_identical.
    discriminate. }
  split; [apply const_method_eq_identical|]. split; [reflexivity|].
  split.
  { apply Bool.eq_true_iff_eq.
    rewrite const_method_eq_identical, bool_decide_eq_true.
    unfold ConstMethod.from_method, ConstMethod.invocation_of_method.
    split; [intros [= ->]; reflexivity | intros ->; reflexivity]. }
  apply Bool.not_true_is_false. rewrite const_method_eq_identical.
  discriminate.
Qed.

End MethodEquality.

(** ** What validity does not cover *)

Section PointersWithoutCode.
Context {W TReturn TParameters : Type}.
Variable free_prog : FreeCallable.program W TReturn TParameters.
Variable method_prog : MutableMethod.program W TReturn TParameters.
Variable const_prog : ConstMethod.program W TReturn TParameters.
Variable policy : error_policy.

(** X8. [is_valid] looks at the stub only. A wrapper constructed from a
    function pointer that designates no function (a null pointer, say) is
    valid and converts to true, and [operator()] on it runs into the
    undefined call through that pointer: no user code is entered and
    nothing is reported. *)
Theorem valid_wrapper_of_a_pointer_without_code
    (f : FreeCallable.function_type)
    (params : TParameters) (s : world W TParameters) :
  FreeCallable.function_body free_prog f = None ->
  FreeCallable.is_valid (FreeCallable.from_function f) = true /\
  FreeCallable.operator_bool (FreeCallable.from_function f) = true /\
  FreeCallable.operator_call free_prog (FreeCallable.from_function f)
    params s = (Undefined (invalid_function_pointer f), s).
Proof.
  intros Hnone. split; [reflexivity|]. split; [reflexivity|].
  unfold FreeCallable.operator_call, FreeCallable.from_function; simpl.
  unfold FreeCallable.function_stub, FreeCallable.call_function; simpl.
  unfold FreeCallable.func; simpl. now rewrite Hnone.
Qed.

(** X9. A method wrapper constructed from a null pointer to member is
    valid. Its [operator()] passes the validity check, so nothing is
    reported, and then calls through the null pointer to member, which is
    undefined; [call_if] and [call_or] do the same, and [call_or] does not
    call the alternative. The same holds for the const-method wrapper. *)
Theorem valid_method_wrapper_of_a_null_member_pointer
    (fallback : TParameters -> W -> TReturn * W)
    (object : pointer) (params : TParameters) (s : world W TParameters) :
  MutableMethod.is_valid (MutableMethod.from_method None) = true /\
  MutableMethod.operator_call method_prog policy
    (MutableMethod.from_method None) object params s =
    (Undefined null_member_pointer, s) /\
  MutableMethod.call_if method_prog policy
    (MutableMethod.from_method None) object params s =
    (Undefined null_member_pointer, s) /\
  MutableMethod.call_or method_prog policy
    (MutableMethod.from_method None) fallback object params s =
    (Undefined null_member_pointer, s) /\
  ConstMethod.is_valid (ConstMethod.from_method None) = true /\
  ConstMethod.operator_call const_prog policy
    (ConstMethod.from_method None) object params s =
    (Undefined null_member_pointer, s) /\
  ConstMethod.call_if const_prog policy
    (ConstMethod.from_method None) object params s =
    (Undefined null_member_pointer, s) /\
  ConstMethod.call_or const_prog policy
    (ConstMethod.from_method None) fallback object params s =
    (Undefined null_member_pointer, s).
Proof.
  assert (Hm : MutableMethod.operator_call method_prog policy
                 (MutableMethod.from_method None) object params s =
               (Undefined null_member_pointer, s))
    by now rewrite method_operator_call_bound.
  assert (Hc : ConstMethod.operator_call const_prog policy
                 (ConstMethod.from_method None) object params s =
               (Undefined null_member_pointer, s))
    by now rewrite const_method_operator_call_bound.
  split; [reflexivity|]. split; [exact Hm|]. split.
  { unfold MutableMethod.call_if; simpl. unfold bind. now rewrite Hm. }
  split; [exact Hm|].
  split; [reflexivity|]. split; [exact Hc|]. split.
  { unfold ConstMethod.call_if; simpl. unfold bind. now rewrite Hc. }
  exact Hc.
Qed.

End PointersWithoutCode.

Lemma valid_wrapper_of_a_pointer_without_code_witness :
  FreeCallable.function_body Client.free_program ETL_NULLPTR = None /\
  FreeCallable.operator_call Client.free_program
    (FreeCallable.from_function ETL_NULLPTR) 4%Z Client.initial =
    (Undefined (invalid_function_pointer ETL_NULLPTR), Client.initial).
Proof.
  split; [reflexivity|].
  apply (valid_wrapper_of_a_pointer_without_code Client.free_program
           ETL_NULLPTR 4%Z Client.initial).
  reflexivity.
Defined.

(** ** The guarded calls *)

Section GuardedCalls.
Context {W TParameters : Type}.

Lemma guarded_outcome_bind_ret {A B : Type} (m : M W TParameters A)
    (g : A -> B) (s : world W TParameters) :
  guarded_outcome (fst (m s)) ->
  guarded_outcome (fst (bind m (fun r => ret (g r)) s)).
Proof. unfold bind. now destruct (m s) as [[a|e| |u] s']. Qed.

Lemma method_operator_call_guarded {R : Type}
    (prog : MutableMethod.program W R TParameters) (policy : error_policy)
    (w : MutableMethod.function_wrapper) (object : pointer)
    (params : TParameters) (s : world W TParameters) :
  MutableMethod.is_valid w = true ->
  guarded_outcome
    (fst (MutableMethod.operator_call prog policy w object params s)).
Proof.
  intros Hvalid. rewrite method_operator_call_bound by exact Hvalid.
  destruct (method_call_member_outcome prog object
              (MutableMethod.method (MutableMethod.invocation w)) params s)
    as [(id & r & h & _ & Hrun)|[_ Hrun]]; rewrite Hrun; simpl.
  - exact I.
  - discriminate.
Qed.

Lemma const_method_operator_call_guarded {R : Type}
    (prog : ConstMethod.program W R TParameters) (policy : error_policy)
    (w : ConstMethod.function_wrapper) (object : pointer)
    (params : TParameters) (s : world W TParameters) :
  ConstMethod.is_valid w = true ->
  guarded_outcome
    (fst (ConstMethod.operator_call prog policy w object params s)).
Proof.
  intros Hvalid. rewrite const_method_operator_call_bound by exact Hvalid.
  destruct (const_method_call_member_outcome prog object
              (ConstMethod.const_method (ConstMethod.invocation w)) params s)
    as [(id & r & h & _ & Hrun)|[_ Hrun]]; rewrite Hrun; simpl.
  - exact I.
  - discriminate.
Qed.

Lemma invoke_guarded {A : Type} (c : callee) (params : TParameters)
    (body : TParameters -> W -> A * W) (s : world W TParameters) :
  guarded_outcome (fst (invoke c params body s)).
Proof. now rewrite invoke_spec. Qed.

Lemma at_most_one_call_ret {A : Type} (params : TParameters) (a : A) :
  at_most_one_call params (ret (W := W) (TParameters := TParameters) a).
Proof. intros s. left. split; reflexivity. Qed.

Lemma at_most_one_call_invoke {A : Type} (c : callee) (params : TParameters)
    (body : TParameters -> W -> A * W) :
  at_most_one_call params (invoke c params body).
Proof. intros s. right. rewrite invoke_spec. simpl. eauto. Qed.

Lemma at_most_one_call_bind_ret {A B : Type} (params : TParameters)
    (m : M W TParameters A) (g : A -> B) :
  at_most_one_call params m ->
  at_most_one_call params (bind m (fun r => ret (g r))).
Proof.
  intros Hm s. specialize (Hm s). unfold bind.
  now destruct (m s) as [[a|e| |u] s'].
Qed.

Lemma free_operator_call_at_most_once {R : Type}
    (prog : FreeCallable.program W R TParameters)
    (w : FreeCallable.function_wrapper) (params : TParameters) :
  at_most_one_call params (FreeCallable.operator_call prog w params).
Proof.
  intros s.
  destruct (free_operator_call_outcome prog w params s)
    as [(c & r & h & _ & Hrun)|(u & Hrun)]; rewrite Hrun; simpl.
  - right. eauto.
  - left. split; reflexivity.
Qed.

Lemma method_operator_call_at_most_once {R : Type}
    (prog : MutableMethod.program W R TParameters) (policy : error_policy)
    (w : MutableMethod.function_wrapper) (object : pointer)
    (params : TParameters) :
  at_most_one_call params
    (MutableMethod.operator_call prog policy w object params).
Proof.
  intros s. destruct (MutableMethod.is_valid w) eqn:Hvalid.
  - rewrite method_operator_call_bound by exact Hvalid.
    destruct (method_call_member_outcome prog object
                (MutableMethod.method (MutableMethod.invocation w)) params s)
      as [(id & r & h & _ & Hrun)|[_ Hrun]]; rewrite Hrun; simpl.
    + right. eauto.
    + left. split; reflexivity.
  - rewrite method_operator_call_unbound by exact Hvalid.
    left. split; reflexivity.
Qed.

Lemma const_method_operator_call_at_most_once {R : Type}
    (prog : ConstMethod.program W R TParameters) (policy : error_policy)
    (w : ConstMethod.function_wrapper) (object : pointer)
    (params : TParameters) :
  at_most_one_call params
    (ConstMethod.operator_call prog policy w object params).
Proof.
  intros s. destruct (ConstMethod.is_valid w) eqn:Hvalid.
  - rewrite const_method_operator_call_bound by exact Hvalid.
    destruct (const_method_call_member_outcome prog object
                (ConstMethod.const_method (ConstMethod.invocation w))
                params s)
      as [(id & r & h & _ & Hrun)|[_ Hrun]]; rewrite Hrun; simpl.
    + right. eauto.
    + left. split; reflexivity.
  - rewrite const_method_operator_call_unbound by exact Hvalid.
    left. split; reflexivity.
Qed.

End GuardedCalls.

Ltac guarded_by Hcall :=
  match goal with
  | |- context [if ?v then _ else _] =>
      destruct v eqn:?;
      [ first [ apply guarded_outcome_bind_ret; now apply Hcall
              | now apply Hcall ]
      | first [ exact I
              | apply invoke_guarded
              | apply guarded_outcome_bind_ret; apply invoke_guarded ] ]
  end.

Ltac at_most_once_by Hcall :=
  match goal with
  | |- context [if ?v then _ else _] =>
      destruct v;
      [ first [ apply at_most_one_call_bind_ret; apply Hcall
              | apply Hcall ]
      | first [ apply at_most_one_call_ret
              | apply at_most_one_call_invoke
              | apply at_most_one_call_bind_ret;
                apply at_most_one_call_invoke ] ]
  end.

Section GuardedCallProperties.
Context {W TReturn TParameters A : Type}.
Variable free_prog : FreeCallable.program W TReturn TParameters.
Variable method_prog : MutableMethod.program W TReturn TParameters.
Variable void_method_prog : MutableMethod.program W unit TParameters.
Variable const_prog : ConstMethod.program W TReturn TParameters.
Variable void_const_prog : ConstMethod.program W unit TParameters.
Variable policy : error_policy.

(** X10. In [call_if] and [call_or] of the two method wrappers the guard
    keeps the wrapper's own failure modes out of reach, whatever the wrapper
    and the error policy: the validity assertion of [operator()] never
    fails, so the error facility never throws the uninitialised exception
    and never halts the program, and a null stub is never dereferenced.
    (User code is modelled as returning; an exception of the target or of
    the alternative is outside this statement.) *)
Theorem guarded_method_calls_never_fail_the_assertion
    (mw : MutableMethod.function_wrapper)
    (cw : ConstMethod.function_wrapper)
    (fallback : TParameters -> W -> TReturn * W)
    (void_fallback : TParameters -> W -> A * W)
    (object : pointer) (params : TParameters) (s : world W TParameters) :
  guarded_outcome
    (fst (MutableMethod.call_if method_prog policy mw object params s)) /\
  guarded_outcome
    (fst (MutableMethod.call_if_void void_method_prog policy mw object
            params s)) /\
  guarded_outcome
    (fst (MutableMethod.call_or method_prog policy mw fallback object
            params s)) /\
  guarded_outcome
    (fst (MutableMethod.call_or_void void_method_prog policy mw
            void_fallback object params s)) /\
  guarded_outcome
    (fst (ConstMethod.call_if const_prog policy cw object params s)) /\
  guarded_outcome
    (fst (ConstMethod.call_if_void void_const_prog policy cw object
            params s)) /\
  guarded_outcome
    (fst (ConstMethod.call_or const_prog policy cw fallback object
            params s)) /\
  guarded_outcome
    (fst (ConstMethod.call_or_void void_const_prog policy cw
            void_fallback object params s)).
Proof.
  unfold MutableMethod.call_if,
    MutableMethod.call_if_void, MutableMethod.call_or,
    MutableMethod.call_or_void, ConstMethod.call_if,
    ConstMethod.call_if_void, ConstMethod.call_or,
    ConstMethod.call_or_void.
  repeat split.
  - guarded_by @method_operator_call_guarded.
  - guarded_by @method_operator_call_guarded.
  - guarded_by @method_operator_call_guarded.
  - guarded_by @method_operator_call_guarded.
  - guarded_by @const_method_operator_call_guarded.
  - guarded_by @const_method_operator_call_guarded.
  - guarded_by @const_method_operator_call_guarded.
  - guarded_by @const_method_operator_call_guarded.
Qed.

(** X11. [call_or] of the two method wrappers is [call_if] followed by the
    choice of the fallback: an empty optional leads to the call of the
    alternative on [params]; a void [call_or] calls the alternative when
    [call_if] returned [false]. *)
Theorem method_call_or_is_call_if_then_the_fallback
    (mw : MutableMethod.function_wrapper)
    (cw : ConstMethod.function_wrapper)
    (fallback : TParameters -> W -> TReturn * W)
    (void_fallback : TParameters -> W -> A * W)
    (object : pointer) (params : TParameters) (s : world W TParameters) :
  MutableMethod.call_or method_prog policy mw fallback object params s =
    bind (MutableMethod.call_if method_prog policy mw object params)
      (fun o =>
         match o with
         | Some r => ret r
         | None => invoke fallback_callable params fallback
         end) s /\
  MutableMethod.call_or_void void_method_prog policy mw void_fallback
    object params s =
    bind (MutableMethod.call_if_void void_method_prog policy mw object params)
      (fun called =>
         if called then ret tt
         else bind (invoke fallback_callable params void_fallback)
                (fun _ => ret tt)) s /\
  ConstMethod.call_or const_prog policy cw fallback object params s =
    bind (ConstMethod.call_if const_prog policy cw object params)
      (fun o =>
         match o with
         | Some r => ret r
         | None => invoke fallback_callable params fallback
         end) s /\
  ConstMethod.call_or_void void_const_prog policy cw void_fallback
    object params s =
    bind (ConstMethod.call_if_void void_const_prog policy cw object params)
      (fun called =>
         if called then ret tt
         else bind (invoke fallback_callable params void_fallback)
                (fun _ => ret tt)) s.
Proof.
  unfold MutableMethod.call_if,
    MutableMethod.call_if_void, MutableMethod.call_or,
    MutableMethod.call_or_void, ConstMethod.call_if,
    ConstMethod.call_if_void, ConstMethod.call_or,
    ConstMethod.call_or_void.
  split; [|split; [|split]].
  - destruct (MutableMethod.is_valid mw); [|reflexivity].
    unfold bind at 1 2.
    now destruct (MutableMethod.operator_call method_prog policy mw object
                    params s) as [[r|e| |u] s'].
  - destruct (MutableMethod.is_valid mw); [|reflexivity].
    unfold bind.
    now destruct (MutableMethod.operator_call void_method_prog policy mw
                    object params s) as [[r|e| |u] s'].
  - destruct (ConstMethod.is_valid cw); [|reflexivity].
    unfold bind at 1 2.
    now destruct (ConstMethod.operator_call const_prog policy cw object
                    params s) as [[r|e| |u] s'].
  - destruct (ConstMethod.is_valid cw); [|reflexivity].
    unfold bind.
    now destruct (ConstMethod.operator_call void_const_prog policy cw
                    object params s) as [[r|e| |u] s'].
Qed.

(** X12. [operator()] of the three wrappers and [call_if] and [call_or] of
    the two method wrappers enter user code at most once, and then with the
    arguments they were given: the target is never called twice and
    [call_or] never calls both the target and the alternative. When no user
    code is entered the heap is as before. *)
Theorem every_operation_enters_user_code_at_most_once
    (fw : FreeCallable.function_wrapper)
    (mw : MutableMethod.function_wrapper)
    (cw : ConstMethod.function_wrapper)
    (fallback : TParameters -> W -> TReturn * W)
    (void_fallback : TParameters -> W -> A * W)
    (object : pointer) (params : TParameters) :
  at_most_one_call params (FreeCallable.operator_call free_prog fw params) /\
  at_most_one_call params
    (MutableMethod.operator_call method_prog policy mw object params) /\
  at_most_one_call params
    (MutableMethod.call_if method_prog policy mw object params) /\
  at_most_one_call params
    (MutableMethod.call_if_void void_method_prog policy mw object params) /\
  at_most_one_call params
    (MutableMethod.call_or method_prog policy mw fallback object params) /\
  at_most_one_call params
    (MutableMethod.call_or_void void_method_prog policy mw void_fallback
       object params) /\
  at_most_one_call params
    (ConstMethod.operator_call const_prog policy cw object params) /\
  at_most_one_call params
    (ConstMethod.call_if const_prog policy cw object params) /\
  at_most_one_call params
    (ConstMethod.call_if_void void_const_prog policy cw object params) /\
  at_most_one_call params
    (ConstMethod.call_or const_prog policy cw fallback object params) /\
  at_most_one_call params
    (ConstMethod.call_or_void void_const_prog policy cw void_fallback
       object params).
Proof.
  unfold MutableMethod.call_if,
    MutableMethod.call_if_void, MutableMethod.call_or,
    MutableMethod.call_or_void, ConstMethod.call_if,
    ConstMethod.call_if_void, ConstMethod.call_or,
    ConstMethod.call_or_void.
  split; [apply free_operator_call_at_most_once|].
  split; [apply method_operator_call_at_most_once|].
  split; [at_most_once_by @method_operator_call_at_most_once|].
  split; [at_most_once_by @method_operator_call_at_most_once|].
  split; [at_most_once_by @method_operator_call_at_most_once|].
  split; [at_most_once_by @method_operator_call_at_most_once|].
  split; [apply const_method_operator_call_at_most_once|].
  split; [at_most_once_by @const_method_operator_call_at_most_once|].
  split; [at_most_once_by @const_method_operator_call_at_most_once|].
  split; [at_most_once_by @const_method_operator_call_at_most_once|].
  at_most_once_by @const_method_operator_call_at_most_once.
Qed.

End GuardedCallProperties.
